(** * Retry executor of the Job Posting Crew configuration (src/config.py)

    A shallow embedding of [Config.calculate_delay],
    [Config.wait_between_requests], [Config.handle_rate_limit],
    [Config.extract_retry_delay] and [Config.execute_with_retry].

    Modelling conventions.
    - Python [int] is [Z].  Python [float] delays are exact rationals [Q]:
      the configured constants and [5.0 * 2.0 ** attempt] are dyadic, so
      the arithmetic below is the exact value of the float computation
      where the float power is exact; where [2.0 ** attempt] overflows it
      raises [OverflowError], and where it underflows it is 0.0.
    - [time.sleep] refuses an [int] of more than 9223372036 seconds with
      [OverflowError]; an unclamped hint can be one.  What the operating
      system does with a length Python accepts is not modelled: it sleeps.
    - [str] is [string], a sequence of code points 0..255.
    - The wrapped callable [func] and [random.uniform] are oracles indexed by
      the number of earlier calls; [time.sleep] and the invocations of
      [func] are recorded, in order, in the [trace] of the [world].
    - An exception is its class and its [str()].  The operation's failures
      are instances of [Exception], the ones the two handlers of
      [execute_with_retry] cover.
    - Logger calls have no effect on control flow or on the waits and are
      left out.

    The development then covers the rest of [Config] (the keys,
    [setup_environment], [validate_required_keys], [DEFAULT_LLM]), the
    tools manager of src/tools.py and the agent factories of src/agents.py.
    The classes of the libraries ([ChatGoogleGenerativeAI], [SerperDevTool],
    [ScrapeWebsiteTool], [Agent]) are modelled by what the code hands to
    their constructors; building a tool yields a new object. *)

From Stdlib Require Import ZArith QArith Qminmax Qpower List String Ascii Bool Lia.
From Stdlib Require Import DecimalString.
From Stdlib Require DecimalZ DecimalPos.
Import ListNotations.

Local Open Scope string_scope.
Local Open Scope Z_scope.

(** ** Exceptions and results *)

Inductive exc_type : Type :=
| ResourceExhausted   (* google.api_core.exceptions.ResourceExhausted *)
| ValueError
| OverflowError
| OtherException.     (* any other instance of Exception *)

Record exn : Type := mk_exn { exc_class : exc_type; exc_str : string }.

Inductive result (B : Type) : Type :=
| Ok (b : B)
| Raise (e : exn).

Arguments Ok {B} b.
Arguments Raise {B} e.

(** ** Strings: [in], [re.search] and [int] *)

Module Str.

(** [p] is a prefix of [s]: the rest of [s] after it. *)
Fixpoint strip_prefix (p s : string) : option string :=
  match p, s with
  | EmptyString, _ => Some s
  | String a p', String b s' =>
      if Ascii.eqb a b then strip_prefix p' s' else None
  | String _ _, EmptyString => None
  end.

(** Python's [sub in s]. *)
Fixpoint contains (sub s : string) : bool :=
  match strip_prefix sub s with
  | Some _ => true
  | None =>
      match s with
      | EmptyString => false
      | String _ s' => contains sub s'
      end
  end.

(** [\s] of a [str] pattern, on code points below 256: [str.isspace]. *)
Definition isspace (c : ascii) : bool :=
  let n := nat_of_ascii c in
  ((9 <=? n) && (n <=? 13) || (28 <=? n) && (n <=? 32)
   || (n =? 133) || (n =? 160))%nat.

(** [\d] on code points below 256: the ASCII digits. *)
Definition isdigit (c : ascii) : bool :=
  let n := nat_of_ascii c in ((48 <=? n) && (n <=? 57))%nat.

Fixpoint all (p : ascii -> bool) (s : string) : bool :=
  match s with
  | EmptyString => true
  | String c s' => p c && all p s'
  end.

(** Greedy [\s*]: what is left after the longest run of white space. *)
Fixpoint skip_spaces (s : string) : string :=
  match s with
  | String c s' => if isspace c then skip_spaces s' else s
  | EmptyString => s
  end.

(** Greedy [\d*]: the longest run of digits at the head of [s]. *)
Fixpoint take_digits (s : string) : string :=
  match s with
  | String c s' => if isdigit c then String c (take_digits s') else EmptyString
  | EmptyString => EmptyString
  end.

(** The pattern [retry_delay\s*{\s*seconds:\s*(\d+)] anchored at the head
    of [s]; the answer is group 1.  Every [\s*] is followed by a
    character that is not white space and [\d+] ends the pattern, so the
    greedy choice is the only one that can match. *)
Definition match_here (s : string) : option string :=
  match strip_prefix "retry_delay" s with
  | None => None
  | Some s1 =>
      match strip_prefix "{" (skip_spaces s1) with
      | None => None
      | Some s2 =>
          match strip_prefix "seconds:" (skip_spaces s2) with
          | None => None
          | Some s3 =>
              match take_digits (skip_spaces s3) with
              | EmptyString => None
              | ds => Some ds
              end
          end
      end
  end.

(** [re.search(r'retry_delay\s*{\s*seconds:\s*(\d+)', s)]: group 1 of the
    leftmost match, [None] when no position matches. *)
Fixpoint re_search (s : string) : option string :=
  match match_here s with
  | Some g => Some g
  | None =>
      match s with
      | EmptyString => None
      | String _ s' => re_search s'
      end
  end.

Definition digit_value (c : ascii) : Z := Z.of_nat (nat_of_ascii c) - 48.

Fixpoint decimal_value (acc : Z) (s : string) : Z :=
  match s with
  | EmptyString => acc
  | String c s' => decimal_value (10 * acc + digit_value c) s'
  end.

(** CPython's default bound on the digits [int] converts
    ([sys.int_info.default_max_str_digits]). *)
Definition int_max_str_digits : nat := 4300.

(** [int(ds)] for a non-empty string of digits [ds], as group 1 is. *)
Definition int_ (ds : string) : result Z :=
  if (int_max_str_digits <? String.length ds)%nat
  then Raise (mk_exn ValueError
                "Exceeds the limit (4300 digits) for integer string conversion")
  else Ok (decimal_value 0 ds).

(** [str(n)] for an [int]. *)
Definition str (n : Z) : string := NilZero.string_of_int (Z.to_int n).

End Str.

(** ** [Config.extract_retry_delay] *)

(** The body of the [try] block; [Ok None] is falling out of it. *)
Definition extract_retry_delay_try (error_message : string)
  : result (option Z) :=
  if Str.contains "retry_delay" error_message
     && Str.contains "seconds" error_message
  then
    match Str.re_search error_message with
    | Some group1 =>
        match Str.int_ group1 with
        | Ok n => Ok (Some n)
        | Raise e => Raise e
        end
    | None => Ok None
    end
  else Ok None.

(** [try: ... except Exception: pass] and then [return None]. *)
Definition extract_retry_delay (error_message : string)
  : result (option Z) :=
  match extract_retry_delay_try error_message with
  | Ok (Some n) => Ok (Some n)
  | Ok None => Ok None
  | Raise _ => Ok None
  end.

(** ** Configuration constants of [Config] *)

Definition BASE_REQUEST_DELAY : Q := 5.
Definition MAX_REQUEST_DELAY : Q := 120.
Definition RATE_LIMIT_DELAY : Q := 180.
Definition MAX_RETRIES : Z := 5.
Definition EXPONENTIAL_BACKOFF_MULTIPLIER : Q := 2.

(** ** The world: oracles' positions and the observable trace *)

Inductive event : Type :=
| Invoked (k : nat)   (* the call of [func] that [k] calls preceded *)
| Slept (d : Q).      (* [time.sleep(d)] *)

Record world : Type := mk_world {
  calls : nat;          (* invocations of [func] so far *)
  draws : nat;          (* calls of [random.uniform] so far *)
  trace : list event    (* oldest event first *)
}.

Definition initial_world : world := mk_world 0 0 [].

(** State and exception monad over the world. *)
Definition M (B : Type) : Type := world -> result B * world.

Definition ret {B} (b : B) : M B := fun w => (Ok b, w).

Definition raise {B} (e : exn) : M B := fun w => (Raise e, w).

Definition bind {B C} (m : M B) (k : B -> M C) : M C :=
  fun w =>
    match m w with
    | (Ok b, w') => k b w'
    | (Raise e, w') => (Raise e, w')
    end.

(** [try: body except Exception as e: handler e]. *)
Definition try_except {B} (body : M B) (handler : exn -> M B) : M B :=
  fun w =>
    match body w with
    | (Ok b, w') => (Ok b, w')
    | (Raise e, w') => handler e w'
    end.

(** A computation without effects on the world. *)
Definition lift {B} (r : result B) : M B := fun w => (r, w).

Declare Scope monad_scope.
Delimit Scope monad_scope with monad.
Notation "x <- m ;; k" := (bind m (fun x => k))
  (at level 61, m at next level, right associativity) : monad_scope.
Notation "m ;; k" := (bind m (fun _ => k))
  (at level 61, right associativity) : monad_scope.
Local Open Scope monad_scope.

(** A Python number handed to [time.sleep]: an [int] or a [float]. *)
Inductive number : Type :=
| PyInt (z : Z)
| PyFloat (q : Q).

Definition number_value (x : number) : Q :=
  match x with
  | PyInt z => inject_Z z
  | PyFloat q => q
  end.

(** [max(x, y)]: [x] unless [x < y]. *)
Definition py_max (x y : number) : number :=
  match (number_value x ?= number_value y)%Q with
  | Lt => y
  | _ => x
  end.

(** The most seconds [time.sleep] takes from an [int]: more of them do not
    fit its signed 64-bit count of nanoseconds. *)
Definition SLEEP_MAX : Z := 9223372036.

Definition sleep_overflow : exn :=
  mk_exn OverflowError "timestamp too large to convert to C _PyTime_t".

Definition sleep_negative : exn :=
  mk_exn ValueError "sleep length must be non-negative".

(** What [2.0 ** attempt] raises when the power is not a finite float. *)
Definition pow_overflow : exn :=
  mk_exn OverflowError "(34, 'Numerical result out of range')".

(** The least [int] that is not converted to a [float]: it rounds to
    2^1024.  What the conversion raises from there on. *)
Definition FLOAT_INT_LIMIT : Z := 2 ^ 1024 - 2 ^ 970.

Definition int_too_large : exn :=
  mk_exn OverflowError "int too large to convert to float".

(** What [2.0 ** attempt] raises for [1024 <= attempt]. *)
Definition power_error (attempt : Z) : exn :=
  if FLOAT_INT_LIMIT <=? attempt then int_too_large else pow_overflow.

(** [time.sleep(secs)].  An [int] is refused when negative and when above
    [SLEEP_MAX]; any other is handed to the operating system, which is
    taken to sleep it.  A [float] the code sleeps is 180.0 or a backoff
    plus jitter, which for the jitter [random.uniform] returns is not
    negative and at most 122 seconds; these [time.sleep] takes. *)
Definition time_sleep (secs : number) : M unit :=
  match secs with
  | PyInt s =>
      if s <? 0 then raise sleep_negative
      else if SLEEP_MAX <? s then raise sleep_overflow
      else fun w =>
             (Ok tt,
              mk_world (calls w) (draws w) (trace w ++ [Slept (inject_Z s)]))
  | PyFloat d =>
      fun w => (Ok tt, mk_world (calls w) (draws w) (trace w ++ [Slept d]))
  end.

Definition waits (tr : list event) : list Q :=
  flat_map (fun ev => match ev with Slept d => [d] | Invoked _ => [] end) tr.

Definition invocations (tr : list event) : list nat :=
  flat_map (fun ev => match ev with Invoked k => [k] | Slept _ => [] end) tr.

Section Executor.

(** Type of the value [func] returns. *)
Variable A : Type.

(** [func k] is the outcome of the call of [func] on its arguments that
    [k] earlier calls preceded. *)
Variable func : nat -> result A.

(** [uniform k] is the value of the call of
    [random.uniform(0, Config.JITTER_MAX)] that [k] earlier calls
    preceded; it lies between [0] and [JITTER_MAX]. *)
Variable uniform : nat -> Q.

Definition call_func : M A :=
  fun w =>
    (func (calls w),
     mk_world (S (calls w)) (draws w) (trace w ++ [Invoked (calls w)])).

Definition random_uniform : M Q :=
  fun w => (Ok (uniform (draws w)),
            mk_world (calls w) (S (draws w)) (trace w)).

(** [Config.EXPONENTIAL_BACKOFF_MULTIPLIER ** attempt] on floats, for the
    multiplier 2.0.  The [int] exponent is converted to a [float] first,
    which raises [OverflowError] from [FLOAT_INT_LIMIT] on, whatever its
    sign.  The power is then exact from 2^-1074 to 2^1023, it is 0.0
    below and [OverflowError] above. *)
Definition multiplier_power (attempt : Z) : result Q :=
  if FLOAT_INT_LIMIT <=? Z.abs attempt then Raise int_too_large
  else if 1024 <=? attempt then Raise pow_overflow
  else if attempt <=? -1075 then Ok 0%Q
  else Ok (EXPONENTIAL_BACKOFF_MULTIPLIER ^ attempt)%Q.

(** [Qmin x y] is [x] unless [y < x], as Python's [min(x, y)] is; likewise
    [Qmax x y] is [x] unless [x < y], as [max(x, y)]. *)
Definition calculate_delay (attempt : Z) (base_delay : option Q) : M Q :=
  let base_delay :=
    match base_delay with
    | None => BASE_REQUEST_DELAY
    | Some b => b
    end in
  power <- lift (multiplier_power attempt) ;;
  let delay := Qmin (base_delay * power) MAX_REQUEST_DELAY in
  jitter <- random_uniform ;;
  ret (delay + jitter)%Q.

(** The exponential backoff [calculate_delay] computes before it adds the
    jitter, for an attempt on which the float power is exact
    ([-1075 < attempt < 1024]). *)
Definition backoff (attempt : Z) (base_delay : option Q) : Q :=
  let base_delay :=
    match base_delay with
    | None => BASE_REQUEST_DELAY
    | Some b => b
    end in
  Qmin (base_delay * EXPONENTIAL_BACKOFF_MULTIPLIER ^ attempt)
       MAX_REQUEST_DELAY.

Definition wait_between_requests (attempt : Z) : M unit :=
  delay <- calculate_delay attempt None ;;
  time_sleep (PyFloat delay).

(** The length of the delay [handle_rate_limit] asks [time.sleep] for;
    [if retry_delay_seconds:] is false for [None] and for [0]. *)
Definition rate_limit_delay (retry_delay_seconds : option Z) : Q :=
  match retry_delay_seconds with
  | Some s =>
      if s =? 0 then RATE_LIMIT_DELAY
      else Qmax (inject_Z s) RATE_LIMIT_DELAY
  | None => RATE_LIMIT_DELAY
  end.

(** [max] hands back the hint itself, an [int], unless the float
    [RATE_LIMIT_DELAY] is greater. *)
Definition handle_rate_limit (retry_delay_seconds : option Z) : M unit :=
  let delay :=
    match retry_delay_seconds with
    | Some s =>
        if s =? 0 then PyFloat RATE_LIMIT_DELAY
        else py_max (PyInt s) (PyFloat RATE_LIMIT_DELAY)
    | None => PyFloat RATE_LIMIT_DELAY
    end in
  time_sleep delay.

(** How one pass through the body of the [for] loop ends. *)
Inductive control : Type :=
| Continue
| Break
| Return_ (v : A).

(** The body of [for attempt in range(max_retries)]; the second
    component is [last_exception] after the pass. *)
Definition attempt_body (max_retries attempt : Z)
           (last_exception : option exn) : M (control * option exn) :=
  try_except
    ((if 0 <? attempt then wait_between_requests attempt else ret tt) ;;
     v <- call_func ;;
     ret (Return_ v, last_exception))
    (fun e =>
       match exc_class e with
       | ResourceExhausted =>
           let error_message := exc_str e in
           suggested_delay <- lift (extract_retry_delay error_message) ;;
           if attempt <? max_retries - 1
           then handle_rate_limit suggested_delay ;; ret (Continue, Some e)
           else ret (Continue, Some e)
       | _ =>
           if attempt <? max_retries - 1
           then wait_between_requests attempt ;; ret (Continue, Some e)
           else ret (Break, Some e)
       end).

(** The [for] loop over the attempts still to run: the value returned
    from inside the loop, if any, and [last_exception]. *)
Fixpoint for_attempts (max_retries : Z) (attempts : list Z)
         (last_exception : option exn) : M (option A * option exn) :=
  match attempts with
  | [] => ret (None, last_exception)
  | attempt :: rest =>
      r <- attempt_body max_retries attempt last_exception ;;
      match r with
      | (Return_ v, last_exception') => ret (Some v, last_exception')
      | (Break, last_exception') => ret (None, last_exception')
      | (Continue, last_exception') =>
          for_attempts max_retries rest last_exception'
      end
  end.

(** Python's [range(n)]. *)
Definition range (n : Z) : list Z := map Z.of_nat (seq 0 (Z.to_nat n)).

Definition execute_with_retry (max_retries : option Z) : M A :=
  let max_retries :=
    match max_retries with
    | None => MAX_RETRIES
    | Some n => n
    end in
  r <- for_attempts max_retries (range max_retries) None ;;
  match r with
  | (Some v, _) => ret v
  | (None, Some last_exception) => raise last_exception
  | (None, None) =>
      raise (mk_exn OtherException
               ("Function failed after " ++ Str.str max_retries
                ++ " attempts"))
  end.

End Executor.

Arguments Continue {A}.
Arguments Break {A}.
Arguments Return_ {A} v.

(** ** The language of the hint pattern, stated on its own

    [hint_pattern s ds]: somewhere in [s] stands [retry_delay], white
    space, an opening brace, white space, [seconds:], white space and the
    non-empty digits [ds].  This is what the regular expression of
    [extract_retry_delay] describes, written without reference to the
    matcher. *)

Definition hint_pattern (s ds : string) : Prop :=
  exists pre ws1 ws2 ws3 post : string,
    s = (pre ++ "retry_delay" ++ ws1 ++ "{" ++ ws2 ++ "seconds:"
         ++ ws3 ++ ds ++ post)%string
    /\ Str.all Str.isspace ws1 = true
    /\ Str.all Str.isspace ws2 = true
    /\ Str.all Str.isspace ws3 = true
    /\ Str.all Str.isdigit ds = true
    /\ ds <> EmptyString.

Definition has_parseable_hint (s : string) : Prop :=
  exists ds, hint_pattern s ds.

(** ** World transformers used to state what a run did *)

Definition slept (d : Q) (w : world) : world :=
  mk_world (calls w) (draws w) (trace w ++ [Slept d]).

Definition invoked (w : world) : world :=
  mk_world (S (calls w)) (draws w) (trace w ++ [Invoked (calls w)]).

(** The world after [wait_between_requests attempt]. *)
Definition backed_off (uniform : nat -> Q) (attempt : Z) (w : world) : world :=
  mk_world (calls w) (S (draws w))
           (trace w ++ [Slept (backoff attempt None + uniform (draws w))%Q]).

(** The world after the pre-attempt wait of the loop body. *)
Definition pre_waited (uniform : nat -> Q) (attempt : Z) (w : world) : world :=
  if 0 <? attempt then backed_off uniform attempt w else w.

(** The hint [execute_with_retry] hands to [handle_rate_limit]. *)
Definition suggested_delay_of (e : exn) : option Z :=
  match extract_retry_delay (exc_str e) with
  | Ok h => h
  | Raise _ => None
  end.

(** [func] fails on each of the calls [c], [c+1], ..., [c+len-1]. *)
Definition fails_on {A} (func : nat -> result A) (c len : nat) : Prop :=
  forall i, (i < len)%nat -> exists e, func (c + i)%nat = Raise e.

(** The defensive branch [raise Exception("Function failed after ...")] is
    the one taken when the loop ends without a value and with
    [last_exception] still [None]. *)
Definition takes_no_error_branch {A} (func : nat -> result A)
           (uniform : nat -> Q) (max_retries : Z) (w : world) : Prop :=
  fst (for_attempts A func uniform max_retries (range max_retries) None w)
  = Ok (None, None).

(** What the handlers of the loop body do to the world after a failure
    [e] of the attempt [attempt]. *)
Definition after_failure (uniform : nat -> Q) (max_retries attempt : Z)
           (e : exn) (w : world) : world :=
  if attempt <? max_retries - 1 then
    match exc_class e with
    | ResourceExhausted => slept (rate_limit_delay (suggested_delay_of e)) w
    | _ => backed_off uniform attempt w
    end
  else w.

(** How the loop goes on after a failure [e] of the attempt [attempt]. *)
Definition control_after_failure {A} (max_retries attempt : Z) (e : exn)
  : control A :=
  match exc_class e with
  | ResourceExhausted => Continue
  | _ => if attempt <? max_retries - 1 then Continue else Break
  end.

(** The base delay of a call of [calculate_delay] is not negative. *)
Definition nonneg_base (base_delay : option Q) : Prop :=
  match base_delay with
  | None => True
  | Some b => (0 <= b)%Q
  end.

(** A failure after which the wait of its handler is one [time.sleep]
    takes: it is not rate limited, or its hint, if there is one, is at
    most [SLEEP_MAX]. *)
Definition sleepable (e : exn) : Prop :=
  exc_class e = ResourceExhausted ->
  forall s, suggested_delay_of e = Some s -> s <= SLEEP_MAX.

(** Every failure among the calls [c], ..., [c+len-1] of [func] is
    [sleepable]. *)
Definition hints_sleepable {A} (func : nat -> result A) (c len : nat) : Prop :=
  forall i e, (i < len)%nat -> func (c + i)%nat = Raise e -> sleepable e.

(** The events that follow a call, up to the last call of a run: two sleeps
    and the next call, any number of times. *)
Fixpoint spaced (tr : list event) : bool :=
  match tr with
  | [] => true
  | Slept _ :: Slept _ :: Invoked _ :: rest => spaced rest
  | _ => false
  end.

(** The events of a run start with a call, end with a call, and have
    exactly two sleeps between a call and the next. *)
Definition run_shaped (tr : list event) : bool :=
  match tr with
  | Invoked _ :: rest => spaced rest
  | _ => false
  end.

(** No sleep recorded in the world was of a negative length. *)
Definition nonneg_waits (w : world) : Prop :=
  Forall (fun d => (0 <= d)%Q) (waits (trace w)).

(** ** Operations and messages used as concrete instances *)

(** An operation that raises the same generic error on every call. *)
Definition always_boom : nat -> result nat :=
  fun _ => Raise (mk_exn OtherException "boom").

(** An operation that is rate limited, without a hint, on its first two
    calls and returns 7 from the third call on. *)
Definition limited_twice : nat -> result nat :=
  fun k =>
    if (k <? 2)%nat
    then Raise (mk_exn ResourceExhausted "429 Resource has been exhausted")
    else Ok 7%nat.

(** An operation that is rate limited on every call, with a hint. *)
Definition always_limited : nat -> result nat :=
  fun _ => Raise (mk_exn ResourceExhausted "retry_delay { seconds: 300 }").

Definition no_jitter : nat -> Q := fun _ => 0%Q.




(** ** The keys of [Config], the environment and the language model
       (src/config.py) *)

(** The truth value Python gives to what [os.getenv] returns: [None] and
    the empty string are false. *)
Definition truthy (v : option string) : bool :=
  match v with
  | None => false
  | Some EmptyString => false
  | Some (String _ _) => true
  end.

(** [os.environ], a mapping from names to values. *)
Definition environ : Type := string -> option string.

Definition getenv (env : environ) (name : string) : option string := env name.

(** [os.environ[name] = value]: a value with a null character is refused
    with [ValueError]. *)
Definition environ_set (env : environ) (name value : string)
  : result environ :=
  if Str.contains (String Ascii.zero EmptyString) value
  then Raise (mk_exn ValueError "embedded null byte")
  else Ok (fun name' => if String.eqb name name' then Some value
                        else env name').

(** The class attributes of [Config] that hold the keys. *)
Record config : Type := mk_config {
  GOOGLE_API_KEY : option string;
  SERPER_API_KEY : option string;
  SERPAPI_API_KEY : option string
}.

(** The class body of [Config] reads the keys with [os.getenv], from the
    environment as [load_dotenv()] left it. *)
Definition load_config (env : environ) : config :=
  mk_config (getenv env "GOOGLE_API_KEY")
            (getenv env "SERPER_API_KEY")
            (getenv env "SERPAPI_API_KEY").

(** [if cls.KEY: os.environ['KEY'] = cls.KEY]. *)
Definition export_key (name : string) (value : option string)
           (env : environ) : result environ :=
  match value with
  | Some (String c v) => environ_set env name (String c v)
  | Some EmptyString => Ok env
  | None => Ok env
  end.

(** [Config.setup_environment]. *)
Definition setup_environment (cls : config) (env : environ)
  : result environ :=
  match export_key "GOOGLE_API_KEY" (GOOGLE_API_KEY cls) env with
  | Raise e => Raise e
  | Ok env1 =>
      match export_key "SERPER_API_KEY" (SERPER_API_KEY cls) env1 with
      | Raise e => Raise e
      | Ok env2 => export_key "SERPAPI_API_KEY" (SERPAPI_API_KEY cls) env2
      end
  end.

(** The keyword arguments [ChatGoogleGenerativeAI] is built with. *)
Record llm : Type := mk_llm {
  llm_model : string;
  llm_google_api_key : option string;
  llm_temperature : Q;
  llm_max_tokens : Z;
  llm_request_timeout : option Z;
  llm_max_retries : option Z;
  llm_rate_limiter : option unit
}.

(** The property [Config.DEFAULT_LLM]. *)
Definition DEFAULT_LLM (self : config) : result llm :=
  if negb (truthy (GOOGLE_API_KEY self))
  then Raise (mk_exn ValueError "GOOGLE_API_KEY is required for Gemini LLM")
  else Ok (mk_llm "gemini-1.5-flash" (GOOGLE_API_KEY self) (7 # 10) 800
                  (Some 120) (Some 0) None).

Definition AGENT_VERBOSE : bool := false.
Definition CREW_VERBOSE : Z := 0.

(** The list [missing_keys] of [Config.validate_required_keys]. *)
Definition missing_keys (cls : config) : list string :=
  let missing_keys := [] in
  let missing_keys :=
    if negb (truthy (GOOGLE_API_KEY cls))
    then (missing_keys ++ ["GOOGLE_API_KEY"])%list else missing_keys in
  let missing_keys :=
    if negb (truthy (SERPER_API_KEY cls))
    then (missing_keys ++ ["SERPER_API_KEY"])%list else missing_keys in
  missing_keys.

(** [Config.validate_required_keys].  [gemini_test l] is the outcome of
    building the test client from the keyword arguments [l] and, when it
    was built, of its [invoke("Hello")]; [tested] lists the keyword
    arguments [ChatGoogleGenerativeAI] was called with, oldest first. *)
Definition validate_required_keys (gemini_test : llm -> result unit)
           (cls : config) (tested : list llm) : bool * list llm :=
  match missing_keys cls with
  | _ :: _ => (false, tested)
  | [] =>
      let test_llm :=
        mk_llm "gemini-1.5-flash" (GOOGLE_API_KEY cls) 0 10 None None None in
      match gemini_test test_llm with
      | Ok _ => (true, (tested ++ [test_llm])%list)
      | Raise e =>
          match exc_class e with
          | ResourceExhausted => (false, (tested ++ [test_llm])%list)
          | _ => (true, (tested ++ [test_llm])%list)
          end
      end
  end.

(** ** The tools manager (src/tools.py) and the agents (src/agents.py) *)

Inductive tool_class : Type := SerperDevTool | ScrapeWebsiteTool.

(** A tool object: the class it was built from and its identity. *)
Record tool : Type := mk_tool { tool_cls : tool_class; tool_id : nat }.

(** The state the tools manager lives in: its two private attributes, what
    was printed, and the tool objects built so far, oldest first. *)
Record process : Type := mk_process {
  _serper_dev_tool : option tool;
  _scrape_website_tool : option tool;
  stdout : list string;
  built : list tool
}.

(** [ToolsManager.__init__] in a process that built no tool yet. *)
Definition new_tools_manager : process := mk_process None None [] [].

(** The property [ToolsManager.serper_dev_tool]. *)
Definition serper_dev_tool (env : environ) (p : process) : tool * process :=
  match _serper_dev_tool p with
  | None =>
      let api_key := getenv env "SERPER_API_KEY" in
      let out :=
        if negb (truthy api_key)
        then (stdout p
              ++ ["Warning: SERPER_API_KEY not found in environment variables"])%list
        else stdout p in
      let t := mk_tool SerperDevTool (List.length (built p)) in
      (t, mk_process (Some t) (_scrape_website_tool p) out
                     (built p ++ [t]))
  | Some t => (t, p)
  end.

(** The property [ToolsManager.scrape_website_tool]. *)
Definition scrape_website_tool (p : process) : tool * process :=
  match _scrape_website_tool p with
  | None =>
      let t := mk_tool ScrapeWebsiteTool (List.length (built p)) in
      (t, mk_process (_serper_dev_tool p) (Some t) (stdout p)
                     (built p ++ [t]))
  | Some t => (t, p)
  end.

Definition get_research_tools (env : environ) (p : process)
  : list tool * process :=
  let (t1, p1) := serper_dev_tool env p in
  let (t2, p2) := scrape_website_tool p1 in
  ([t1; t2], p2).

Definition get_writer_tools (env : environ) (p : process)
  : list tool * process :=
  let (t1, p1) := serper_dev_tool env p in
  ([t1], p1).

Definition get_review_tools (env : environ) (p : process)
  : list tool * process :=
  let (t1, p1) := serper_dev_tool env p in
  ([t1], p1).

(** The uses the rest of the code makes of the manager. *)
Inductive access : Type :=
| AccessSerperDevTool
| AccessScrapeWebsiteTool
| GetResearchTools
| GetWriterTools
| GetReviewTools.

(** One use, in the environment of the moment: the tools handed out. *)
Definition perform (env : environ) (a : access) (p : process)
  : list tool * process :=
  match a with
  | AccessSerperDevTool => let (t, p') := serper_dev_tool env p in ([t], p')
  | AccessScrapeWebsiteTool => let (t, p') := scrape_website_tool p in ([t], p')
  | GetResearchTools => get_research_tools env p
  | GetWriterTools => get_writer_tools env p
  | GetReviewTools => get_review_tools env p
  end.

(** A sequence of uses, each in its own environment: all the tools handed
    out, in order. *)
Fixpoint perform_all (uses : list (environ * access)) (p : process)
  : list tool * process :=
  match uses with
  | [] => ([], p)
  | (env, a) :: rest =>
      let (ts, p1) := perform env a p in
      let (ts', p2) := perform_all rest p1 in
      ((ts ++ ts')%list, p2)
  end.

(** Importing [tools]: the manager is created and the two module-level
    names are bound to its tools. *)
Definition import_tools (env : environ) : process :=
  let tools_manager := new_tools_manager in
  let (_, p1) := serper_dev_tool env tools_manager in
  let (_, p2) := scrape_website_tool p1 in
  p2.

(** The keyword arguments an [Agent] is built with. *)
Record agent : Type := mk_agent {
  agent_role : string;
  agent_goal : string;
  agent_backstory : string;
  agent_tools : list tool;
  agent_verbose : bool;
  agent_llm : llm
}.

(** The arguments of [Agent(...)] are evaluated in the order written:
    the tools first, the language model last. *)
Definition create_research_agent (cls : config) (env : environ) (p : process)
  : result agent * process :=
  let (tools, p') := get_research_tools env p in
  match DEFAULT_LLM cls with
  | Raise e => (Raise e, p')
  | Ok l =>
      (Ok (mk_agent
             "Research Analyst"
             "Analyze the company website and provided description to extract insights on culture, values, and specific needs."
             "Expert in analyzing company cultures and identifying key values and needs from various sources, including websites and brief descriptions."
             tools AGENT_VERBOSE l),
       p')
  end.

Definition create_writer_agent (cls : config) (env : environ) (p : process)
  : result agent * process :=
  let (tools, p') := get_writer_tools env p in
  match DEFAULT_LLM cls with
  | Raise e => (Raise e, p')
  | Ok l =>
      (Ok (mk_agent
             "Job Description Writer"
             "Use insights from the Research Analyst to create a detailed, engaging, and enticing job posting."
             "Skilled in crafting compelling job descriptions that resonate with the company's values and attract the right candidates."
             tools AGENT_VERBOSE l),
       p')
  end.

Definition create_review_agent (cls : config) (env : environ) (p : process)
  : result agent * process :=
  let (tools, p') := get_review_tools env p in
  match DEFAULT_LLM cls with
  | Raise e => (Raise e, p')
  | Ok l =>
      (Ok (mk_agent
             "Review and Editing Specialist"
             "Review the job posting for clarity, engagement, grammatical accuracy, and alignment with company values and refine it to ensure perfection."
             "A meticulous editor with an eye for detail, ensuring every piece of content is clear, engaging, and grammatically perfect."
             tools AGENT_VERBOSE l),
       p')
  end.

(** The three agents [JobPostingCrew.__init__] creates, in its order. *)
Definition create_agents (cls : config) (env : environ) (p : process)
  : result (agent * agent * agent) * process :=
  match create_research_agent cls env p with
  | (Raise e, p1) => (Raise e, p1)
  | (Ok research_agent, p1) =>
      match create_writer_agent cls env p1 with
      | (Raise e, p2) => (Raise e, p2)
      | (Ok writer_agent, p2) =>
          match create_review_agent cls env p2 with
          | (Raise e, p3) => (Raise e, p3)
          | (Ok review_agent, p3) =>
              (Ok (research_agent, writer_agent, review_agent), p3)
          end
      end
  end.

(** 1 for an attribute of the manager that is set, 0 for [None]. *)
Definition is_set (o : option tool) : nat :=
  match o with
  | Some _ => 1
  | None => 0
  end.

(** The manager is in an orderly state: the tools built are the ones it
    holds, one for each attribute that is set, and the warning was printed
    at most once, when the first attribute was set. *)
Definition manager_ok (p : process) : Prop :=
  (forall t, In t (built p) ->
             (tool_cls t = SerperDevTool /\ _serper_dev_tool p = Some t)
             \/ (tool_cls t = ScrapeWebsiteTool
                 /\ _scrape_website_tool p = Some t))
  /\ (forall t, _serper_dev_tool p = Some t ->
                In t (built p) /\ tool_cls t = SerperDevTool)
  /\ (forall t, _scrape_website_tool p = Some t ->
                In t (built p) /\ tool_cls t = ScrapeWebsiteTool)
  /\ List.length (built p)
     = (is_set (_serper_dev_tool p) + is_set (_scrape_website_tool p))%nat
  /\ (List.length (stdout p) <= is_set (_serper_dev_tool p))%nat.

(** The attributes of the manager that are set in [p] are set to the same
    tools in [p'], and the tools built in [p] are still there. *)
Definition manager_grows (p p' : process) : Prop :=
  (forall t, _serper_dev_tool p = Some t -> _serper_dev_tool p' = Some t)
  /\ (forall t, _scrape_website_tool p = Some t ->
                _scrape_website_tool p' = Some t)
  /\ (forall t, In t (built p) -> In t (built p')).

(** No value of the environment holds a null character. *)
Definition environ_ok (env : environ) : Prop :=
  forall name value,
    env name = Some value ->
    Str.contains (String Ascii.zero EmptyString) value = false.

(** ** Configurations and environments used as concrete instances *)

Definition keys_set : config :=
  mk_config (Some "google-key") (Some "serper-key") None.

Definition google_only : environ :=
  fun name =>
    if String.eqb name "GOOGLE_API_KEY" then Some "google-key" else None.

Definition test_passes : llm -> result unit := fun _ => Ok tt.

(** * Facts about the string functions *)

Module StrFacts.
Import Str.

Lemma strip_prefix_app p : forall s r,
  strip_prefix p s = Some r -> s = (p ++ r)%string.
Proof.
  induction p as [|a p IH]; intros s r H; simpl in *.
  - now inversion H.
  - destruct s as [|b s]; [discriminate|].
    destruct (Ascii.eqb a b) eqn:E; [|discriminate].
    apply Ascii.eqb_eq in E. subst b. f_equal. now apply IH.
Qed.

Lemma strip_prefix_self p : forall r,
  strip_prefix p (p ++ r)%string = Some r.
Proof.
  induction p as [|a p IH]; intros r; simpl; [reflexivity|].
  now rewrite Ascii.eqb_refl.
Qed.

Lemma contains_app sub : forall pre post,
  contains sub (pre ++ sub ++ post)%string = true.
Proof.
  induction pre as [|c pre IH]; intros post.
  - simpl. destruct (sub ++ post)%string eqn:E;
      simpl; rewrite <- ?E, strip_prefix_self; reflexivity.
  - simpl. destruct (strip_prefix sub _); [reflexivity|]. apply IH.
Qed.

Lemma skip_spaces_app s :
  exists ws, s = (ws ++ skip_spaces s)%string /\ all isspace ws = true.
Proof.
  induction s as [|c s [ws [E H]]]; simpl.
  - now exists EmptyString.
  - destruct (isspace c) eqn:C.
    + exists (String c ws). simpl. rewrite C, H. split; [now f_equal|reflexivity].
    + now exists EmptyString.
Qed.

Lemma take_digits_app s :
  exists post, s = (take_digits s ++ post)%string
               /\ all isdigit (take_digits s) = true.
Proof.
  induction s as [|c s [post [E H]]]; simpl.
  - now exists EmptyString.
  - destruct (isdigit c) eqn:C.
    + exists post. simpl. rewrite C, H. split; [now f_equal|reflexivity].
    + now exists (String c s).
Qed.

Lemma match_here_sound s ds :
  match_here s = Some ds ->
  exists ws1 ws2 ws3 post,
    s = ("retry_delay" ++ ws1 ++ "{" ++ ws2 ++ "seconds:"
         ++ ws3 ++ ds ++ post)%string
    /\ all isspace ws1 = true /\ all isspace ws2 = true
    /\ all isspace ws3 = true /\ all isdigit ds = true
    /\ ds <> EmptyString.
Proof.
  unfold match_here. intros H.
  destruct (strip_prefix "retry_delay" s) as [s1|] eqn:E1; [|discriminate].
  destruct (strip_prefix "{" (skip_spaces s1)) as [s2|] eqn:E2; [|discriminate].
  destruct (strip_prefix "seconds:" (skip_spaces s2)) as [s3|] eqn:E3;
    [|discriminate].
  destruct (skip_spaces_app s1) as [ws1 [F1 S1]].
  destruct (skip_spaces_app s2) as [ws2 [F2 S2]].
  destruct (skip_spaces_app s3) as [ws3 [F3 S3]].
  destruct (take_digits_app (skip_spaces s3)) as [post [F4 D]].
  apply strip_prefix_app in E1, E2, E3.
  assert (G : take_digits (skip_spaces s3) = ds)
    by (destruct (take_digits (skip_spaces s3)); [discriminate|now inversion H]).
  rewrite G in *.
  exists ws1, ws2, ws3, post. repeat split; try assumption.
  - rewrite E1. f_equal. rewrite F1, E2. f_equal. simpl. f_equal.
    rewrite F2, E3. f_equal. simpl. do 8 f_equal.
    rewrite F3, F4. reflexivity.
  - intros ->. discriminate.
Qed.

Lemma re_search_sound s : forall ds,
  re_search s = Some ds -> hint_pattern s ds.
Proof.
  induction s as [|c s IH]; intros ds H; simpl in H.
  - discriminate H.
  - destruct (match_here (String c s)) eqn:E.
    + inversion H; subst. apply match_here_sound in E.
      destruct E as (ws1 & ws2 & ws3 & post & E & R).
      now exists EmptyString, ws1, ws2, ws3, post.
    + destruct (IH _ H) as (pre & ws1 & ws2 & ws3 & post & E' & R).
      exists (String c pre), ws1, ws2, ws3, post. split; [|exact R].
      simpl. now f_equal.
Qed.

Lemma skip_spaces_all ws : forall r,
  all isspace ws = true -> skip_spaces (ws ++ r)%string = skip_spaces r.
Proof.
  induction ws as [|c ws IH]; intros r H; simpl in *; [reflexivity|].
  apply andb_prop in H. destruct H as [Hc Hws]. rewrite Hc. now apply IH.
Qed.

Lemma take_digits_all ds : forall post,
  all isdigit ds = true ->
  take_digits (ds ++ post)%string = (ds ++ take_digits post)%string.
Proof.
  induction ds as [|c ds IH]; intros post H; simpl in *; [reflexivity|].
  apply andb_prop in H. destruct H as [Hc Hds]. rewrite Hc. f_equal.
  now apply IH.
Qed.

Lemma isdigit_not_isspace c : isdigit c = true -> isspace c = false.
Proof.
  destruct c as [[] [] [] [] [] [] [] []]; vm_compute;
    intros H; try reflexivity; discriminate H.
Qed.

Lemma match_here_complete ws1 ws2 ws3 ds post :
  all isspace ws1 = true -> all isspace ws2 = true ->
  all isspace ws3 = true -> all isdigit ds = true -> ds <> EmptyString ->
  match_here ("retry_delay" ++ ws1 ++ "{" ++ ws2 ++ "seconds:"
              ++ ws3 ++ ds ++ post)%string
  = Some (ds ++ take_digits post)%string.
Proof.
  intros S1 S2 S3 D N. unfold match_here.
  rewrite strip_prefix_self, (skip_spaces_all ws1 _ S1).
  change (skip_spaces ("{" ++ ?r)) with ("{" ++ r)%string.
  rewrite strip_prefix_self, (skip_spaces_all ws2 _ S2).
  change (skip_spaces ("seconds:" ++ ?r)) with ("seconds:" ++ r)%string.
  rewrite strip_prefix_self, (skip_spaces_all ws3 _ S3).
  destruct ds as [|d ds]; [contradiction|].
  simpl in D. apply andb_prop in D. destruct D as [Dd Dds].
  simpl. rewrite (isdigit_not_isspace d Dd). simpl.
  now rewrite Dd, (take_digits_all ds post Dds).
Qed.

Lemma re_search_here s g : match_here s = Some g -> re_search s = Some g.
Proof. intros H. destruct s; cbn [re_search]; rewrite H; reflexivity. Qed.

Lemma re_search_complete s ds :
  hint_pattern s ds -> exists ds', re_search s = Some ds'.
Proof.
  intros (pre & ws1 & ws2 & ws3 & post & E & S1 & S2 & S3 & D & N).
  subst s. induction pre as [|c pre IH].
  - eexists. apply re_search_here.
    now apply (match_here_complete ws1 ws2 ws3 ds post).
  - change (String c pre ++ ?r)%string with (String c (pre ++ r)).
    cbn [re_search].
    destruct (match_here _) as [g|]; [now exists g | exact IH].
Qed.

(** The matcher finds a hint exactly in the strings of the pattern's
    language. *)
Lemma re_search_iff s :
  has_parseable_hint s <-> exists ds, re_search s = Some ds.
Proof.
  split.
  - intros [ds H]. now apply re_search_complete with ds.
  - intros [ds H]. exists ds. now apply re_search_sound.
Qed.

End StrFacts.

(** * Facts about the delays *)

Section DelayFacts.

Variable uniform : nat -> Q.

Lemma FLOAT_INT_LIMIT_large : 1075 < FLOAT_INT_LIMIT.
Proof. vm_compute. reflexivity. Qed.

Lemma power_error_class attempt :
  exc_class (power_error attempt) = OverflowError.
Proof. unfold power_error. now destruct (FLOAT_INT_LIMIT <=? attempt). Qed.


Lemma multiplier_power_exact attempt :
  -1075 < attempt < 1024 ->
  multiplier_power attempt = Ok (EXPONENTIAL_BACKOFF_MULTIPLIER ^ attempt)%Q.
Proof.
  intros [Hlo Hhi]. pose proof FLOAT_INT_LIMIT_large as HL.
  unfold multiplier_power.
  destruct (Z.leb_spec FLOAT_INT_LIMIT (Z.abs attempt)); [lia|].
  destruct (Z.leb_spec 1024 attempt); [lia|].
  destruct (Z.leb_spec attempt (-1075)); [lia|]. reflexivity.
Qed.

Lemma multiplier_power_underflow attempt :
  - FLOAT_INT_LIMIT < attempt <= -1075 ->
  multiplier_power attempt = Ok 0%Q.
Proof.
  intros [Hlo Hhi]. unfold multiplier_power.
  destruct (Z.leb_spec FLOAT_INT_LIMIT (Z.abs attempt)); [lia|].
  destruct (Z.leb_spec 1024 attempt); [lia|].
  destruct (Z.leb_spec attempt (-1075)); [reflexivity | lia].
Qed.

Lemma multiplier_power_overflow attempt :
  1024 <= attempt -> multiplier_power attempt = Raise (power_error attempt).
Proof.
  intros H. unfold multiplier_power, power_error.
  replace (Z.abs attempt) with attempt by lia.
  destruct (FLOAT_INT_LIMIT <=? attempt); [reflexivity|].
  destruct (Z.leb_spec 1024 attempt); [reflexivity | lia].
Qed.

Lemma multiplier_power_conversion attempt :
  attempt <= - FLOAT_INT_LIMIT ->
  multiplier_power attempt = Raise int_too_large.
Proof.
  intros H. unfold multiplier_power.
  destruct (Z.leb_spec FLOAT_INT_LIMIT (Z.abs attempt)); [reflexivity | lia].
Qed.



(** What [calculate_delay] does wherever the power is a float. *)
Lemma calculate_delay_power attempt base_delay p w :
  multiplier_power attempt = Ok p ->
  calculate_delay uniform attempt base_delay w
  = (Ok (Qmin (match base_delay with
               | None => BASE_REQUEST_DELAY
               | Some b => b
               end * p) MAX_REQUEST_DELAY + uniform (draws w))%Q,
     mk_world (calls w) (S (draws w)) (trace w)).
Proof.
  intros E. unfold calculate_delay, bind, lift. rewrite E. reflexivity.
Qed.

Lemma calculate_delay_eq attempt base_delay w :
  -1075 < attempt < 1024 ->
  calculate_delay uniform attempt base_delay w
  = (Ok (backoff attempt base_delay + uniform (draws w))%Q,
     mk_world (calls w) (S (draws w)) (trace w)).
Proof.
  intros H.
  now rewrite (calculate_delay_power _ _ _ _ (multiplier_power_exact _ H)).
Qed.

(** From attempt 1024 on the power overflows: no delay, no jitter drawn. *)
Lemma calculate_delay_overflow attempt base_delay w :
  1024 <= attempt ->
  calculate_delay uniform attempt base_delay w
  = (Raise (power_error attempt), w).
Proof.
  intros H. unfold calculate_delay, bind, lift.
  now rewrite (multiplier_power_overflow _ H).
Qed.

Lemma wait_between_requests_eq attempt w :
  -1075 < attempt < 1024 ->
  wait_between_requests uniform attempt w
  = (Ok tt, backed_off uniform attempt w).
Proof.
  intros H. unfold wait_between_requests, bind.
  now rewrite (calculate_delay_eq _ _ _ H).
Qed.

Lemma wait_between_requests_overflow attempt w :
  1024 <= attempt ->
  wait_between_requests uniform attempt w = (Raise (power_error attempt), w).
Proof.
  intros H. unfold wait_between_requests, bind.
  now rewrite (calculate_delay_overflow _ _ _ H).
Qed.

Lemma rate_limit_delay_max h :
  rate_limit_delay (Some h) = Qmax (inject_Z h) RATE_LIMIT_DELAY.
Proof.
  unfold rate_limit_delay. destruct (Z.eqb_spec h 0) as [->|_]; reflexivity.
Qed.

(** The comparison [max] makes between an [int] hint and 180.0. *)
Lemma hint_compare s :
  (inject_Z s ?= RATE_LIMIT_DELAY)%Q = (s ?= 180).
Proof.
  unfold Qcompare, RATE_LIMIT_DELAY, inject_Z. simpl.
  now rewrite Z.mul_1_r.
Qed.

(** A hint [time.sleep] takes is slept, or 180 seconds if that is longer. *)
Lemma handle_rate_limit_eq h w :
  (forall s, h = Some s -> s <= SLEEP_MAX) ->
  handle_rate_limit h w = (Ok tt, slept (rate_limit_delay h) w).
Proof.
  intros Hs. destruct h as [s|]; [|reflexivity].
  specialize (Hs s eq_refl).
  unfold handle_rate_limit, rate_limit_delay.
  destruct (Z.eqb_spec s 0) as [->|Hnz]; [reflexivity|].
  unfold py_max, Qmax, GenericMinMax.gmax. cbn [number_value].
  rewrite hint_compare. destruct (Z.compare_spec s 180) as [E | L | G];
    try reflexivity; unfold time_sleep;
    (destruct (Z.ltb_spec s 0); [lia|]);
    (destruct (Z.ltb_spec SLEEP_MAX s); [lia|]); reflexivity.
Qed.

(** A longer hint is refused by [time.sleep]: nothing is slept. *)
Lemma handle_rate_limit_overflow s w :
  SLEEP_MAX < s ->
  handle_rate_limit (Some s) w = (Raise sleep_overflow, w).
Proof.
  intros Hs. assert (HM : SLEEP_MAX = 9223372036) by reflexivity.
  unfold handle_rate_limit.
  destruct (Z.eqb_spec s 0) as [->|Hnz]; [lia|].
  unfold py_max. cbn [number_value].
  rewrite hint_compare. destruct (Z.compare_spec s 180) as [E | L | G];
    try lia; unfold time_sleep;
    (destruct (Z.ltb_spec s 0); [lia|]);
    (destruct (Z.ltb_spec SLEEP_MAX s); [reflexivity | lia]).
Qed.

Lemma backoff_le_cap attempt base_delay :
  (backoff attempt base_delay <= MAX_REQUEST_DELAY)%Q.
Proof. unfold backoff. apply Q.le_min_r. Qed.

Lemma backoff_nonneg attempt base_delay :
  nonneg_base base_delay -> (0 <= backoff attempt base_delay)%Q.
Proof.
  intros Hb. unfold backoff. apply Q.min_glb; [|discriminate].
  apply Qmult_le_0_compat.
  - destruct base_delay; [exact Hb | discriminate].
  - apply Qpower_0_le. discriminate.
Qed.

(** From the fifth retry on the backoff of the default base delay stands
    at the cap. *)
Lemma backoff_capped attempt :
  5 <= attempt -> (backoff attempt None == MAX_REQUEST_DELAY)%Q.
Proof.
  intros H. unfold backoff. apply Q.min_r.
  apply Qle_trans with (BASE_REQUEST_DELAY * EXPONENTIAL_BACKOFF_MULTIPLIER ^ 5)%Q;
    [discriminate|].
  rewrite !(Qmult_comm BASE_REQUEST_DELAY).
  apply Qmult_le_compat_r; [|discriminate].
  apply Qpower_le_compat_l; [exact H | discriminate].
Qed.

End DelayFacts.

(** * Facts about the loop of [execute_with_retry] *)

Section ExecutorFacts.

Variable A : Type.
Variable func : nat -> result A.
Variable uniform : nat -> Q.

Lemma extract_retry_delay_eq s :
  extract_retry_delay s
  = Ok (match extract_retry_delay s with Ok h => h | Raise _ => None end).
Proof.
  unfold extract_retry_delay.
  destruct (extract_retry_delay_try s) as [[n|]|e]; reflexivity.
Qed.

Lemma calls_pre_waited a w : calls (pre_waited uniform a w) = calls w.
Proof. unfold pre_waited. now destruct (0 <? a). Qed.

Lemma calls_after_failure mr a e w :
  calls (after_failure uniform mr a e w) = calls w.
Proof.
  unfold after_failure.
  destruct (a <? mr - 1); [destruct (exc_class e)|]; reflexivity.
Qed.



(** The wait before the call of an attempt below 1024. *)
Lemma pre_wait_eq a w :
  a < 1024 ->
  (if 0 <? a then wait_between_requests uniform a else ret tt) w
  = (Ok tt, pre_waited uniform a w).
Proof.
  intros Ha. unfold pre_waited. destruct (Z.ltb_spec 0 a); [|reflexivity].
  apply wait_between_requests_eq. lia.
Qed.

Lemma call_func_eq w : call_func A func w = (func (calls w), invoked w).
Proof. reflexivity. Qed.

(** A pass of the loop body whose call of [func] returns. *)
Lemma attempt_body_returns mr a last w v :
  a < 1024 ->
  func (calls w) = Ok v ->
  attempt_body A func uniform mr a last w
  = (Ok (Return_ v, last), invoked (pre_waited uniform a w)).
Proof.
  intros Ha H. unfold attempt_body, try_except, bind.
  rewrite (pre_wait_eq a w Ha). cbv beta iota.
  rewrite call_func_eq, calls_pre_waited, H. reflexivity.
Qed.

(** A pass of the loop body whose call of [func] raises, when the wait of
    the handler, if it makes one, goes through. *)
Lemma attempt_body_raises mr a last w e :
  0 <= a < 1024 ->
  func (calls w) = Raise e ->
  (a < mr - 1 -> sleepable e) ->
  attempt_body A func uniform mr a last w
  = (Ok (control_after_failure mr a e, Some e),
     after_failure uniform mr a e (invoked (pre_waited uniform a w))).
Proof.
  intros Ha H Hs. unfold attempt_body, try_except, bind.
  rewrite (pre_wait_eq a w (proj2 Ha)). cbv beta iota.
  rewrite call_func_eq, calls_pre_waited, H. cbv beta iota.
  unfold control_after_failure, after_failure, lift.
  destruct (Z.ltb_spec a (mr - 1)) as [Hnf | Hfin].
  - destruct (exc_class e) eqn:C.
    + rewrite extract_retry_delay_eq. cbv beta iota.
      change (match extract_retry_delay (exc_str e) with
              | Ok h => h
              | Raise _ => None
              end) with (suggested_delay_of e).
      rewrite handle_rate_limit_eq by (apply (Hs Hnf C)). reflexivity.
    + rewrite wait_between_requests_eq by lia. reflexivity.
    + rewrite wait_between_requests_eq by lia. reflexivity.
    + rewrite wait_between_requests_eq by lia. reflexivity.
  - destruct (exc_class e); try reflexivity.
    rewrite extract_retry_delay_eq. reflexivity.
Qed.

(** A pass that is not the final one and meets a rate-limited failure
    whose hint [time.sleep] refuses: the [OverflowError] leaves the
    handler right after the call. *)
Lemma attempt_body_hint_overflow mr a last w e s :
  a < 1024 ->
  a < mr - 1 ->
  func (calls w) = Raise e ->
  exc_class e = ResourceExhausted ->
  suggested_delay_of e = Some s ->
  SLEEP_MAX < s ->
  attempt_body A func uniform mr a last w
  = (Raise sleep_overflow, invoked (pre_waited uniform a w)).
Proof.
  intros Ha Hnf H C Hh Hs. unfold attempt_body, try_except, bind.
  rewrite (pre_wait_eq a w Ha). cbv beta iota.
  rewrite call_func_eq, calls_pre_waited, H. cbv beta iota.
  rewrite C. unfold lift. rewrite extract_retry_delay_eq. cbv beta iota.
  change (match extract_retry_delay (exc_str e) with
          | Ok h => h
          | Raise _ => None
          end) with (suggested_delay_of e).
  apply Z.ltb_lt in Hnf. rewrite Hnf, Hh.
  rewrite handle_rate_limit_overflow by exact Hs. reflexivity.
Qed.

(** A pass for an attempt from 1024 on: the power of its wait overflows
    before the call; the handler waits again, and fails again, unless the
    attempt is the final one. *)
Lemma attempt_body_pow_overflow mr a last w :
  1024 <= a ->
  attempt_body A func uniform mr a last w
  = if a <? mr - 1 then (Raise (power_error a), w)
    else (Ok (Break, Some (power_error a)), w).
Proof.
  intros Ha. unfold attempt_body, try_except, bind.
  destruct (Z.ltb_spec 0 a); [|lia].
  rewrite wait_between_requests_overflow by exact Ha. cbv beta iota.
  rewrite power_error_class.
  destruct (a <? mr - 1); [|reflexivity].
  rewrite wait_between_requests_overflow by exact Ha. reflexivity.
Qed.

(** The five ways a pass can end. *)
Lemma attempt_body_cases mr a last w :
  0 <= a ->
  let w1 := invoked (pre_waited uniform a w) in
  let body := attempt_body A func uniform mr a last w in
  (exists v, func (calls w) = Ok v /\ a < 1024
             /\ body = (Ok (Return_ v, last), w1))
  \/ (exists e, func (calls w) = Raise e /\ a < 1024
                /\ body = (Ok (control_after_failure mr a e, Some e),
                           after_failure uniform mr a e w1))
  \/ (exists e, func (calls w) = Raise e /\ a < 1024 /\ a < mr - 1
                /\ body = (Raise sleep_overflow, w1))
  \/ (1024 <= a /\ a < mr - 1 /\ body = (Raise (power_error a), w))
  \/ (1024 <= a /\ mr - 1 <= a
      /\ body = (Ok (Break, Some (power_error a)), w)).
Proof.
  intros Ha. cbv zeta.
  destruct (Z.lt_ge_cases a 1024) as [Hlt | Hge].
  - destruct (func (calls w)) as [v|e] eqn:F.
    + left. exists v. repeat split; auto. now apply attempt_body_returns.
    + right.
      destruct (Z.lt_ge_cases a (mr - 1)) as [Hnf | Hfin].
      * destruct (exc_class e) eqn:C;
          try (left; exists e; repeat split; auto;
               apply attempt_body_raises; auto;
               intros _ C'; congruence).
        destruct (suggested_delay_of e) as [s|] eqn:Hh.
        -- destruct (Z.le_gt_cases s SLEEP_MAX) as [Hle | Hgt].
           ++ left. exists e. repeat split; auto.
              apply attempt_body_raises; auto.
              intros _ _ s' E'. congruence.
           ++ right. left. exists e. repeat split; auto.
              apply (attempt_body_hint_overflow mr a last w e s); auto; lia.
        -- left. exists e. repeat split; auto.
           apply attempt_body_raises; auto.
           intros _ _ s' E'. congruence.
      * left. exists e. repeat split; auto.
        apply attempt_body_raises; auto. lia.
  - right. right. right.
    rewrite (attempt_body_pow_overflow mr a last w) by lia.
    destruct (Z.ltb_spec a (mr - 1)); [left | right]; repeat split; lia.
Qed.

Lemma for_attempts_cons mr a rest last w :
  for_attempts A func uniform mr (a :: rest) last w
  = match attempt_body A func uniform mr a last w with
    | (Ok (Return_ v, last'), w') => (Ok (Some v, last'), w')
    | (Ok (Break, last'), w') => (Ok (None, last'), w')
    | (Ok (Continue, last'), w') =>
        for_attempts A func uniform mr rest last' w'
    | (Raise e, w') => (Raise e, w')
    end.
Proof.
  simpl. unfold bind.
  destruct (attempt_body A func uniform mr a last w) as [[[[| |v] le]|e] w'];
    reflexivity.
Qed.

Lemma invocations_app tr1 tr2 :
  invocations (tr1 ++ tr2) = (invocations tr1 ++ invocations tr2)%list.
Proof. apply flat_map_app. Qed.

Lemma waits_app tr1 tr2 :
  waits (tr1 ++ tr2) = (waits tr1 ++ waits tr2)%list.
Proof. apply flat_map_app. Qed.

(** Where a failed pass that is not the final one leaves the loop. *)
Lemma control_nonfinal mr a e :
  a < mr - 1 -> control_after_failure (A:=A) mr a e = Continue.
Proof.
  intros H. unfold control_after_failure. apply Z.ltb_lt in H. rewrite H.
  now destruct (exc_class e).
Qed.

Lemma after_failure_final mr a e w :
  mr - 1 <= a -> after_failure uniform mr a e w = w.
Proof.
  intros H. unfold after_failure.
  destruct (Z.ltb_spec a (mr - 1)); [lia | reflexivity].
Qed.








(** Among the next [len] calls either all fail or there is a first one
    that returns. *)
Lemma first_success_or_all_fail c len :
  fails_on func c len
  \/ exists j v, (j < len)%nat /\ fails_on func c j
                 /\ func (c + j)%nat = Ok v.
Proof.
  induction len as [|len [IH | (j & v & Hj & Hf & Hv)]].
  - left. intros i Hi. lia.
  - destruct (func (c + len)%nat) as [v|e] eqn:E.
    + right. exists len, v. auto.
    + left. intros i Hi. destruct (Nat.eq_dec i len) as [->|Hne].
      * now exists e.
      * apply IH. lia.
  - right. exists j, v. auto.
Qed.

End ExecutorFacts.

Section LoopFacts.

Variable A : Type.
Variable func : nat -> result A.
Variable uniform : nat -> Q.

Lemma rate_limit_delay_floor h : (RATE_LIMIT_DELAY <= rate_limit_delay h)%Q.
Proof.
  destruct h as [h|]; [|apply Qle_refl].
  rewrite rate_limit_delay_max. apply Q.le_max_r.
Qed.

Lemma Slept_counts d w tr :
  trace w = (tr ++ [Slept d])%list ->
  List.length (waits (trace w)) = S (List.length (waits tr))
  /\ List.length (invocations (trace w)) = List.length (invocations tr)
  /\ ((0 <= d)%Q -> Forall (fun d => (0 <= d)%Q) (waits tr) -> nonneg_waits w).
Proof.
  intros E. unfold nonneg_waits. rewrite E, waits_app, invocations_app.
  rewrite !length_app. cbn [waits invocations flat_map List.length app].
  repeat split; [lia | lia |].
  intros Hd Hw. apply Forall_app. split; [exact Hw|]. now repeat constructor.
Qed.

(** The number of sleeps and of calls a pass adds before its call. *)
Lemma pre_waited_counts a w :
  List.length (waits (trace (pre_waited uniform a w)))
  = (List.length (waits (trace w)) + (if (0 <? a)%Z then 1 else 0))%nat
  /\ List.length (invocations (trace (pre_waited uniform a w)))
     = List.length (invocations (trace w))
  /\ ((forall k, (0 <= uniform k)%Q) -> nonneg_waits w ->
      nonneg_waits (pre_waited uniform a w)).
Proof.
  unfold pre_waited. destruct (0 <? a).
  - destruct (Slept_counts (backoff a None + uniform (draws w))%Q
                (backed_off uniform a w) (trace w) eq_refl) as (W & I & N).
    repeat split; [lia | exact I |].
    intros Hu Hw. apply N; [|exact Hw].
    rewrite <- (Qplus_0_r 0). apply Qplus_le_compat; [|apply Hu].
    now apply backoff_nonneg.
  - repeat split; [lia | auto].
Qed.

Lemma invoked_counts w :
  List.length (waits (trace (invoked w))) = List.length (waits (trace w))
  /\ List.length (invocations (trace (invoked w)))
     = S (List.length (invocations (trace w)))
  /\ (nonneg_waits w -> nonneg_waits (invoked w)).
Proof.
  unfold invoked, nonneg_waits. cbn [trace].
  rewrite waits_app, invocations_app, !length_app.
  cbn [waits invocations flat_map List.length app].
  repeat split; [lia | lia |]. intros Hw. now rewrite app_nil_r.
Qed.

Lemma after_failure_counts mr a e w :
  List.length (waits (trace (after_failure uniform mr a e w)))
  = (List.length (waits (trace w))
     + (if (a <? mr - 1)%Z then 1 else 0))%nat
  /\ List.length (invocations (trace (after_failure uniform mr a e w)))
     = List.length (invocations (trace w))
  /\ ((forall k, (0 <= uniform k)%Q) -> nonneg_waits w ->
      nonneg_waits (after_failure uniform mr a e w)).
Proof.
  unfold after_failure.
  destruct (a <? mr - 1); [|repeat split; [lia | auto]].
  assert (Hb : forall k, (0 <= uniform k)%Q ->
                         (0 <= backoff a None + uniform k)%Q).
  { intros k Hk. rewrite <- (Qplus_0_r 0).
    apply Qplus_le_compat; [now apply backoff_nonneg | exact Hk]. }
  assert (Hr : (0 <= rate_limit_delay (suggested_delay_of e))%Q)
    by (apply Qle_trans with RATE_LIMIT_DELAY;
        [discriminate | apply rate_limit_delay_floor]).
  destruct (exc_class e).
  - destruct (Slept_counts (rate_limit_delay (suggested_delay_of e))
                (slept (rate_limit_delay (suggested_delay_of e)) w)
                (trace w) eq_refl) as (W & I & N).
    repeat split; [lia | exact I | auto].
  - destruct (Slept_counts (backoff a None + uniform (draws w))%Q
                (backed_off uniform a w) (trace w) eq_refl) as (W & I & N).
    repeat split; [lia | exact I | auto].
  - destruct (Slept_counts (backoff a None + uniform (draws w))%Q
                (backed_off uniform a w) (trace w) eq_refl) as (W & I & N).
    repeat split; [lia | exact I | auto].
  - destruct (Slept_counts (backoff a None + uniform (draws w))%Q
                (backed_off uniform a w) (trace w) eq_refl) as (W & I & N).
    repeat split; [lia | exact I | auto].
Qed.

(** The events a pass adds before and after its call. *)
Lemma trace_pre_waited_eq a w :
  exists pre,
    trace (pre_waited uniform a w) = (trace w ++ pre)%list
    /\ (a <= 0 -> pre = [])
    /\ (0 < a -> exists d, pre = [Slept d]).
Proof.
  unfold pre_waited. destruct (Z.ltb_spec 0 a).
  - eexists. split; [reflexivity|]. split; [lia|]. intros _. eexists.
    reflexivity.
  - exists []. split; [now rewrite app_nil_r|]. split; [auto | lia].
Qed.

Lemma trace_after_failure_eq mr a e w :
  exists post,
    trace (after_failure uniform mr a e w) = (trace w ++ post)%list
    /\ (mr - 1 <= a -> post = [])
    /\ (a < mr - 1 -> exists d, post = [Slept d]).
Proof.
  unfold after_failure. destruct (Z.ltb_spec a (mr - 1)).
  - destruct (exc_class e); eexists; (split; [reflexivity|]);
      (split; [lia|]); intros _; eexists; reflexivity.
  - exists []. split; [now rewrite app_nil_r|]. split; [auto | lia].
Qed.

Section Loop.

(** The retry budget. *)
Variable n : nat.
Let mr : Z := Z.of_nat n.






End Loop.

End LoopFacts.

Section RunFacts.

Variable A : Type.
Variable func : nat -> result A.
Variable uniform : nat -> Q.

(** A pass adds at most one call, and the runs of the loop nothing but
    calls and sleeps of a length that is not negative: this holds of
    every operation, budget and list of attempts, also where a wait
    raises. *)
Lemma for_attempts_bounds mr : forall len a last w,
  let w' := snd (for_attempts A func uniform mr
                   (map Z.of_nat (seq a len)) last w) in
  (calls w <= calls w' <= calls w + len)%nat
  /\ List.length (invocations (trace w'))
     = (List.length (invocations (trace w)) + (calls w' - calls w))%nat
  /\ ((1 <= len)%nat -> (a < 1024)%nat -> (calls w < calls w')%nat)
  /\ ((forall i, (0 <= uniform i)%Q) -> nonneg_waits w -> nonneg_waits w').
Proof.
  induction len as [|len IH]; intros a last w; cbv zeta.
  - cbn [seq map for_attempts ret snd]. repeat split; try lia. auto.
  - change (map Z.of_nat (seq a (S len)))
      with (Z.of_nat a :: map Z.of_nat (seq (S a) len)).
    rewrite for_attempts_cons.
    destruct (pre_waited_counts uniform (Z.of_nat a) w) as (_ & PI & PN).
    destruct (invoked_counts (pre_waited uniform (Z.of_nat a) w))
      as (_ & II & IN).
    assert (C1 : calls (invoked (pre_waited uniform (Z.of_nat a) w))
                 = S (calls w))
      by (cbn [invoked calls]; now rewrite calls_pre_waited).
    assert (R1 : let w1 := invoked (pre_waited uniform (Z.of_nat a) w) in
                 (calls w <= calls w1 <= calls w + S len)%nat
                 /\ List.length (invocations (trace w1))
                    = (List.length (invocations (trace w))
                       + (calls w1 - calls w))%nat
                 /\ ((1 <= S len)%nat -> (a < 1024)%nat ->
                     (calls w < calls w1)%nat)
                 /\ ((forall i, (0 <= uniform i)%Q) -> nonneg_waits w ->
                     nonneg_waits w1)).
    { cbv zeta. rewrite C1, II, PI. repeat split; try lia. auto. }
    destruct (attempt_body_cases A func uniform mr (Z.of_nat a) last w
                ltac:(lia))
      as [(v & _ & _ & E) | [(e & _ & _ & E) | [(e & _ & _ & _ & E)
          | [(Ha & _ & E) | (Ha & _ & E)]]]];
      rewrite E; cbv beta iota.
    + exact R1.
    + destruct (after_failure_counts uniform mr (Z.of_nat a) e
                  (invoked (pre_waited uniform (Z.of_nat a) w)))
        as (_ & AI & AN).
      set (w2 := after_failure uniform mr (Z.of_nat a) e
                   (invoked (pre_waited uniform (Z.of_nat a) w))) in *.
      assert (C2 : calls w2 = S (calls w))
        by (subst w2; now rewrite calls_after_failure).
      destruct (control_after_failure mr (Z.of_nat a) e); cbv beta iota.
      * specialize (IH (S a) (Some e) w2). cbv zeta in IH.
        destruct IH as (Ck & Ik & _ & Nk).
        rewrite C2 in Ck. rewrite Ik, AI, II, PI, C2.
        repeat split; try lia. auto.
      * cbn [snd]. rewrite C2, AI, II, PI. repeat split; try lia. auto.
      * cbn [snd]. rewrite C2, AI, II, PI. repeat split; try lia. auto.
    + exact R1.
    + cbn [snd]. repeat split; try lia. auto.
    + cbn [snd]. repeat split; try lia. auto.
Qed.

(** Before the final attempt the loop is never left by [break]. *)
Lemma for_attempts_app_nonfinal mr : forall l1 l2 last w,
  Forall (fun a => 0 <= a < mr - 1) l1 ->
  for_attempts A func uniform mr (l1 ++ l2) last w
  = match for_attempts A func uniform mr l1 last w with
    | (Ok (None, last'), w0) => for_attempts A func uniform mr l2 last' w0
    | r => r
    end.
Proof.
  induction l1 as [|a l1 IH]; intros l2 last w Hl; [reflexivity|].
  inversion Hl as [|? ? [Ha Hnf] Hl']; subst.
  rewrite <- app_comm_cons, !for_attempts_cons.
  destruct (attempt_body_cases A func uniform mr a last w Ha)
    as [(v & _ & _ & E) | [(e & _ & _ & E) | [(e & _ & _ & _ & E)
        | [(_ & _ & E) | (_ & Hfin & _)]]]];
    try rewrite E; try reflexivity; [|lia].
  rewrite (control_nonfinal A mr a e Hnf). now apply IH.
Qed.

Section Counts.

Variable n : nat.
Let mr : Z := Z.of_nat n.

(** With a budget of at most 1024 attempts, the attempts [a], ...,
    [n-1] make between one call and one call each; the events they add
    are calls with two sleeps between any two of them, and nothing after
    the last call. *)
Lemma for_attempts_counts : forall len a last w,
  (a + len = n)%nat -> (1 <= len)%nat -> (n <= 1024)%nat ->
  let w' := snd (for_attempts A func uniform mr
                   (map Z.of_nat (seq a len)) last w) in
  exists k tr,
    (1 <= k <= len)%nat
    /\ calls w' = (calls w + k)%nat
    /\ trace w' = (trace w ++ tr)%list
    /\ List.length (invocations tr) = k
    /\ (List.length (waits tr) + (if (a =? 0)%nat then 2 else 1)
        = 2 * k)%nat
    /\ (if (a =? 0)%nat then run_shaped tr = true
        else forall d, spaced (Slept d :: tr) = true).
Proof.
  induction len as [|len IH]; intros a last w Han Hlen Hn; [lia|].
  cbv zeta.
  change (map Z.of_nat (seq a (S len)))
    with (Z.of_nat a :: map Z.of_nat (seq (S a) len)).
  rewrite for_attempts_cons.
  destruct (trace_pre_waited_eq uniform (Z.of_nat a) w)
    as (pre & PE & P0 & P1).
  assert (C1 : calls (invoked (pre_waited uniform (Z.of_nat a) w))
               = S (calls w))
    by (cbn [invoked calls]; now rewrite calls_pre_waited).
  assert (T1 : trace (invoked (pre_waited uniform (Z.of_nat a) w))
               = (trace w ++ pre ++ [Invoked (calls w)])%list)
    by (cbn [invoked trace]; now rewrite calls_pre_waited, PE, app_assoc).
  assert (R1 : let w1 := invoked (pre_waited uniform (Z.of_nat a) w) in
               exists k tr,
                 (1 <= k <= S len)%nat
                 /\ calls w1 = (calls w + k)%nat
                 /\ trace w1 = (trace w ++ tr)%list
                 /\ List.length (invocations tr) = k
                 /\ (List.length (waits tr)
                     + (if (a =? 0)%nat then 2 else 1) = 2 * k)%nat
                 /\ (if (a =? 0)%nat then run_shaped tr = true
                     else forall d, spaced (Slept d :: tr) = true)).
  { cbv zeta. exists 1%nat, (pre ++ [Invoked (calls w)])%list.
    split; [lia|]. split; [lia|]. split; [exact T1|].
    destruct a as [|a].
    - rewrite (P0 ltac:(lia)). repeat split.
    - destruct (P1 ltac:(lia)) as [d ->]. repeat split. }
  destruct (attempt_body_cases A func uniform mr (Z.of_nat a) last w
              ltac:(lia))
    as [(v & _ & _ & E) | [(e & _ & _ & E) | [(e & _ & _ & _ & E)
        | [(Ha & _) | (Ha & _)]]]]; try lia;
    rewrite E; cbv beta iota; try exact R1.
  destruct len as [|len'].
  - (* the final attempt *)
    rewrite after_failure_final by (unfold mr; lia).
    match goal with
    | |- context [snd ?t] =>
        replace (snd t)
          with (invoked (pre_waited uniform (Z.of_nat a) w))
          by (destruct (control_after_failure mr (Z.of_nat a) e);
              reflexivity)
    end.
    exact R1.
  - (* an earlier attempt *)
    assert (Hnf : Z.of_nat a < mr - 1) by (unfold mr; lia).
    rewrite (control_nonfinal A mr _ e Hnf).
    destruct (trace_after_failure_eq uniform mr (Z.of_nat a) e
                (invoked (pre_waited uniform (Z.of_nat a) w)))
      as (post & AE & _ & A1).
    destruct (A1 Hnf) as [p ->].
    set (w2 := after_failure uniform mr (Z.of_nat a) e
                 (invoked (pre_waited uniform (Z.of_nat a) w))) in *.
    assert (C2 : calls w2 = S (calls w))
      by (subst w2; now rewrite calls_after_failure).
    destruct (IH (S a) (Some e) w2 ltac:(lia) ltac:(lia) Hn)
      as (k & tr & Hk & Ck & Tk & Ik & Wk & Sk).
    cbn [Nat.eqb] in Wk, Sk.
    exists (S k), (pre ++ Invoked (calls w) :: Slept p :: tr)%list.
    split; [lia|]. split; [lia|]. split.
    { rewrite Tk, AE, T1, <- !app_assoc. reflexivity. }
    destruct a as [|a].
    + rewrite (P0 ltac:(lia)). cbn [app Nat.eqb].
      cbn [invocations waits flat_map app List.length run_shaped].
      fold (invocations tr). fold (waits tr).
      split; [lia|]. split; [lia|]. exact (Sk p).
    + destruct (P1 ltac:(lia)) as [d ->]. cbn [app Nat.eqb].
      cbn [invocations waits flat_map app List.length].
      fold (invocations tr). fold (waits tr).
      split; [lia|]. split; [lia|]. intros d0. cbn [spaced]. exact (Sk p).
Qed.


End Counts.

Lemma range_of_nat n : range (Z.of_nat n) = map Z.of_nat (seq 0 n).
Proof. unfold range. now rewrite Nat2Z.id. Qed.

Lemma range_nonpos mr : mr <= 0 -> range mr = [].
Proof.
  intros H. unfold range. now replace (Z.to_nat mr) with 0%nat by lia.
Qed.

(** [range(n)] is [range(n-1)] followed by the final attempt. *)
Lemma range_final mr : 1 <= mr -> range mr = (range (mr - 1) ++ [mr - 1])%list.
Proof.
  intros H. unfold range.
  replace (Z.to_nat mr) with (S (Z.to_nat (mr - 1))) by lia.
  rewrite seq_S, map_app. cbn [map Nat.add]. now rewrite Z2Nat.id by lia.
Qed.

Lemma range_nonfinal mr :
  Forall (fun a => 0 <= a < mr - 1) (range (mr - 1)).
Proof.
  unfold range. apply Forall_forall. intros a Ha.
  apply in_map_iff in Ha. destruct Ha as (k & <- & Hk).
  apply in_seq in Hk. lia.
Qed.

Lemma execute_with_retry_default w :
  execute_with_retry A func uniform None w
  = execute_with_retry A func uniform (Some MAX_RETRIES) w.
Proof. reflexivity. Qed.

(** How [execute_with_retry] ends, from how its loop ends. *)
Lemma execute_with_retry_eq mr w :
  execute_with_retry A func uniform (Some mr) w
  = match for_attempts A func uniform mr (range mr) None w with
    | (Ok (Some v, _), w') => (Ok v, w')
    | (Ok (None, Some last_exception), w') => (Raise last_exception, w')
    | (Ok (None, None), w') =>
        (Raise (mk_exn OtherException
                  ("Function failed after " ++ Str.str mr ++ " attempts")),
         w')
    | (Raise e, w') => (Raise e, w')
    end.
Proof.
  unfold execute_with_retry, bind.
  destruct (for_attempts A func uniform mr (range mr) None w)
    as [[[[v|] [e|]]|e] w']; reflexivity.
Qed.

Lemma execute_with_retry_world mr w :
  snd (execute_with_retry A func uniform (Some mr) w)
  = snd (for_attempts A func uniform mr (range mr) None w).
Proof.
  rewrite execute_with_retry_eq.
  destruct (for_attempts A func uniform mr (range mr) None w)
    as [[[[v|] [e|]]|e] w']; reflexivity.
Qed.




(** The shape of every run with a budget between 1 and 1024 attempts. *)
Lemma execute_with_retry_counts mr w :
  1 <= mr <= 1024 ->
  let w' := snd (execute_with_retry A func uniform (Some mr) w) in
  exists k tr,
    (1 <= k <= Z.to_nat mr)%nat
    /\ calls w' = (calls w + k)%nat
    /\ trace w' = (trace w ++ tr)%list
    /\ List.length (invocations tr) = k
    /\ (List.length (waits tr) + 2 = 2 * k)%nat
    /\ run_shaped tr = true.
Proof.
  intros Hmr. cbv zeta. rewrite execute_with_retry_world.
  rewrite <- (Z2Nat.id mr) by lia. rewrite range_of_nat.
  rewrite Nat2Z.id.
  apply (for_attempts_counts (Z.to_nat mr) (Z.to_nat mr) 0 None w); lia.
Qed.

(** What every run keeps, whatever the operation and the budget. *)
Lemma execute_with_retry_bounds mr w :
  let w' := snd (execute_with_retry A func uniform (Some mr) w) in
  (calls w <= calls w' <= calls w + Z.to_nat mr)%nat
  /\ List.length (invocations (trace w'))
     = (List.length (invocations (trace w)) + (calls w' - calls w))%nat
  /\ (1 <= mr -> (calls w < calls w')%nat)
  /\ ((forall i, (0 <= uniform i)%Q) -> nonneg_waits w -> nonneg_waits w').
Proof.
  cbv zeta. rewrite execute_with_retry_world. unfold range.
  destruct (for_attempts_bounds mr (Z.to_nat mr) 0 None w)
    as (C & I & P & N).
  split; [lia|]. split; [exact I|]. split; [|exact N].
  intros H. apply P; lia.
Qed.

(** A loop that ends without a value either made no pass or has an
    error to raise. *)
Lemma for_attempts_outcome mr : forall len a last w,
  match fst (for_attempts A func uniform mr
               (map Z.of_nat (seq a len)) last w) with
  | Ok (None, last') =>
      (len = 0%nat /\ last' = last)
      \/ (exists e, last' = Some e)
  | _ => True
  end.
Proof.
  induction len as [|len IH]; intros a last w.
  - cbn [seq map for_attempts ret fst]. left. auto.
  - change (map Z.of_nat (seq a (S len)))
      with (Z.of_nat a :: map Z.of_nat (seq (S a) len)).
    rewrite for_attempts_cons.
    destruct (attempt_body_cases A func uniform mr (Z.of_nat a) last w
                ltac:(lia))
      as [(v & _ & _ & E) | [(e & _ & _ & E) | [(e & _ & _ & _ & E)
          | [(Ha & _ & E) | (Ha & _ & E)]]]];
      rewrite E; cbv beta iota; cbn [fst]; auto; [|right; eauto].
    destruct (control_after_failure mr (Z.of_nat a) e); cbv beta iota;
      cbn [fst]; [|right; eauto|exact I].
    specialize (IH (S a) (Some e)
                   (after_failure uniform mr (Z.of_nat a) e
                      (invoked (pre_waited uniform (Z.of_nat a) w)))).
    destruct (fst (for_attempts A func uniform mr
                     (map Z.of_nat (seq (S a) len)) (Some e) _))
      as [[[v|] last']|x]; auto.
    destruct IH as [[_ ->] | IH]; right; eauto.
Qed.

(** The defensive branch is the one of an empty [range]. *)
Lemma no_error_branch_iff mr w :
  takes_no_error_branch func uniform mr w <-> mr <= 0.
Proof.
  unfold takes_no_error_branch. split.
  - intros H. destruct (Z.le_gt_cases mr 0) as [|Hpos]; [assumption|].
    exfalso. unfold range in H.
    pose proof (for_attempts_outcome mr (Z.to_nat mr) 0 None w) as O.
    rewrite H in O. destruct O as [[O _] | [e O]]; [lia | discriminate].
  - intros H. now rewrite range_nonpos.
Qed.


End RunFacts.

(** ** Failures whose handler wait goes through *)

Lemma generic_sleepable e : exc_class e <> ResourceExhausted -> sleepable e.
Proof. intros G C. contradiction. Qed.

Lemma no_hint_sleepable e :
  extract_retry_delay (exc_str e) = Ok None -> sleepable e.
Proof.
  intros H _ s Hs. unfold suggested_delay_of in Hs. rewrite H in Hs.
  discriminate Hs.
Qed.

Ltac world_eq :=
  cbv beta delta [after_failure pre_waited];
  repeat match goal with
         | |- context [(?a <? ?b)%Z] =>
             let v := eval vm_compute in (a <? b)%Z in
             change (a <? b)%Z with v
         end;
  cbv beta iota delta [backed_off slept invoked calls draws trace];
  rewrite <- ?app_assoc; reflexivity.

(** * The properties of the specification *)




(** C4 (malformed hint fallback): [extract_retry_delay] returns on every
    string and never raises; on a message in which the hint pattern does
    not occur it returns [None], and the rate-limit wait that follows is
    exactly [RATE_LIMIT_DELAY]. *)
Theorem malformed_hint_fallback (error_message : string) :
  (exists hint, extract_retry_delay error_message = Ok hint)
  /\ (~ has_parseable_hint error_message ->
      extract_retry_delay error_message = Ok None
      /\ forall w,
          bind (lift (extract_retry_delay error_message)) handle_rate_limit w
          = (Ok tt, slept RATE_LIMIT_DELAY w)).
Proof.
  split.
  - eexists. apply (extract_retry_delay_eq error_message).
  - intros Hno.
    assert (E : extract_retry_delay error_message = Ok None).
    { unfold extract_retry_delay, extract_retry_delay_try.
      destruct (Str.contains "retry_delay" error_message
                && Str.contains "seconds" error_message); [|reflexivity].
      destruct (Str.re_search error_message) as [ds|] eqn:S; [|reflexivity].
      exfalso. apply Hno. exists ds. now apply StrFacts.re_search_sound. }
    split; [exact E|].
    intros w. unfold bind, lift. rewrite E. reflexivity.
Qed.

(** C5 (final attempt, no wait): a pass of the loop for the final attempt
    (index [max_retries - 1]) that fails ends the loop with no wait after
    the failure, whatever the class of the failure: neither handler
    sleeps.  When the call of the final attempt fails, the world is left
    as it was right after that call; with a budget above 1024 the failure
    of the final attempt is the [OverflowError] of its own backoff, met
    before the call, and the world is left as it was.  So a run that
    arrives at the final attempt and fails there raises that failure at
    once. *)
Theorem final_attempt_no_wait (A : Type) (func : nat -> result A)
        (uniform : nat -> Q) (n : Z) :
  1 <= n ->
  (forall (last : option exn) (w0 : world) (e : exn),
      n - 1 < 1024 ->
      func (calls w0) = Raise e ->
      exists ctl,
        attempt_body A func uniform n (n - 1) last w0
        = (Ok (ctl, Some e), invoked (pre_waited uniform (n - 1) w0))
        /\ (ctl = Continue \/ ctl = Break))
  /\ (forall (last : option exn) (w0 : world),
         1024 <= n - 1 ->
         attempt_body A func uniform n (n - 1) last w0
         = (Ok (Break, Some (power_error (n - 1))), w0))
  /\ (forall (w : world) (last : option exn) (w0 : world),
         for_attempts A func uniform n (range (n - 1)) None w
         = (Ok (None, last), w0) ->
         (forall e,
             n - 1 < 1024 ->
             func (calls w0) = Raise e ->
             execute_with_retry A func uniform (Some n) w
             = (Raise e, invoked (pre_waited uniform (n - 1) w0)))
         /\ (1024 <= n - 1 ->
             execute_with_retry A func uniform (Some n) w
             = (Raise (power_error (n - 1)), w0))).
Proof.
  intros Hn.
  assert (P1 : forall (last : option exn) (w0 : world) (e : exn),
             n - 1 < 1024 ->
             func (calls w0) = Raise e ->
             exists ctl,
               attempt_body A func uniform n (n - 1) last w0
               = (Ok (ctl, Some e), invoked (pre_waited uniform (n - 1) w0))
               /\ (ctl = Continue \/ ctl = Break)).
  { intros last w0 e Hlt He.
    rewrite (attempt_body_raises A func uniform n (n - 1) last w0 e
               ltac:(lia) He ltac:(lia)).
    unfold after_failure, control_after_failure.
    rewrite Z.ltb_irrefl.
    destruct (exc_class e); eexists; split; auto. }
  assert (P2 : forall (last : option exn) (w0 : world),
             1024 <= n - 1 ->
             attempt_body A func uniform n (n - 1) last w0
             = (Ok (Break, Some (power_error (n - 1))), w0)).
  { intros last w0 Hge.
    rewrite (attempt_body_pow_overflow A func uniform n (n - 1) last w0 Hge).
    now rewrite Z.ltb_irrefl. }
  split; [exact P1|]. split; [exact P2|].
  intros w last w0 Hrun.
  assert (E : for_attempts A func uniform n (range n) None w
              = for_attempts A func uniform n [n - 1] last w0).
  { rewrite (range_final n Hn),
      (for_attempts_app_nonfinal A func uniform n _ _ None w
         (range_nonfinal n)), Hrun.
    reflexivity. }
  rewrite execute_with_retry_eq, E, for_attempts_cons. split.
  - intros e Hlt He. destruct (P1 last w0 e Hlt He) as (ctl & -> & [-> | ->]);
      reflexivity.
  - intros Hge. now rewrite (P2 last w0 Hge).
Qed.


(** C7, as the code runs it: with [max_retries = 2] and an operation whose
    every failure is generic, [execute_with_retry] calls the operation
    exactly twice and raises the second error, and it sleeps twice between
    the two calls: the backoff of attempt index 0 in the handler of the
    first failure, then the backoff of attempt index 1 before the second
    call. *)
Theorem generic_failures_budget_two (A : Type) (func : nat -> result A)
        (uniform : nat -> Q) (w : world) :
  (forall k, exists e, func k = Raise e /\ exc_class e <> ResourceExhausted) ->
  exists e2,
    func (S (calls w)) = Raise e2
    /\ execute_with_retry A func uniform (Some 2) w
       = (Raise e2,
          mk_world (S (S (calls w))) (S (S (draws w)))
            (trace w
             ++ [Invoked (calls w);
                 Slept (backoff 0 None + uniform (draws w))%Q;
                 Slept (backoff 1 None + uniform (S (draws w)))%Q;
                 Invoked (S (calls w))])).
Proof.
  intros Hg.
  destruct (Hg (calls w)) as (e1 & F1 & G1).
  destruct (Hg (S (calls w))) as (e2 & F2 & G2).
  exists e2. split; [exact F2|].
  rewrite execute_with_retry_eq.
  change (range 2) with [0; 1].
  rewrite for_attempts_cons,
    (attempt_body_raises A func uniform 2 0 None w e1 ltac:(lia) F1
       (fun _ => generic_sleepable e1 G1)).
  assert (C1 : control_after_failure (A:=A) 2 0 e1 = Continue)
    by (unfold control_after_failure; destruct (exc_class e1);
        [contradiction | reflexivity ..]).
  rewrite C1.
  set (w1 := after_failure uniform 2 0 e1 (invoked (pre_waited uniform 0 w))).
  assert (E1 : w1 = mk_world (S (calls w)) (S (draws w))
                      (trace w ++ [Invoked (calls w);
                                   Slept (backoff 0 None + uniform (draws w))%Q]))
    by (subst w1; unfold after_failure at 1; destruct (exc_class e1);
        [contradiction | | | ]; world_eq).
  assert (F2' : func (calls w1) = Raise e2) by (rewrite E1; exact F2).
  rewrite for_attempts_cons,
    (attempt_body_raises A func uniform 2 1 _ w1 e2 ltac:(lia) F2'
       (fun _ => generic_sleepable e2 G2)).
  assert (C2 : control_after_failure (A:=A) 2 1 e2 = Break)
    by (unfold control_after_failure; destruct (exc_class e2);
        [contradiction | reflexivity ..]).
  rewrite C2, E1. f_equal. world_eq.
Qed.

(** C8, as the code runs it: with [max_retries = 3] and an operation that is
    rate limited without a hint on its first two calls and returns on the
    third, [execute_with_retry] calls the operation exactly three times and
    returns its value; after each rate-limited failure it sleeps
    [RATE_LIMIT_DELAY] and then, before the next call, the backoff of that
    call's attempt index as well: four waits in all. *)
Theorem rate_limited_twice_then_success (A : Type) (func : nat -> result A)
        (uniform : nat -> Q) (w : world) (e0 e1 : exn) (v : A) :
  func (calls w) = Raise e0 ->
  exc_class e0 = ResourceExhausted ->
  extract_retry_delay (exc_str e0) = Ok None ->
  func (S (calls w)) = Raise e1 ->
  exc_class e1 = ResourceExhausted ->
  extract_retry_delay (exc_str e1) = Ok None ->
  func (S (S (calls w))) = Ok v ->
  execute_with_retry A func uniform (Some 3) w
  = (Ok v,
     mk_world (S (S (S (calls w)))) (S (S (draws w)))
       (trace w
        ++ [Invoked (calls w);
            Slept RATE_LIMIT_DELAY;
            Slept (backoff 1 None + uniform (draws w))%Q;
            Invoked (S (calls w));
            Slept RATE_LIMIT_DELAY;
            Slept (backoff 2 None + uniform (S (draws w)))%Q;
            Invoked (S (S (calls w)))])).
Proof.
  intros F0 R0 H0 F1 R1 H1 F2.
  rewrite execute_with_retry_eq.
  change (range 3) with [0; 1; 2].
  rewrite for_attempts_cons,
    (attempt_body_raises A func uniform 3 0 None w e0 ltac:(lia) F0
       (fun _ => no_hint_sleepable e0 H0)).
  unfold control_after_failure at 1. rewrite R0.
  set (w1 := after_failure uniform 3 0 e0 (invoked (pre_waited uniform 0 w))).
  assert (E1 : w1 = mk_world (S (calls w)) (draws w)
                      (trace w ++ [Invoked (calls w); Slept RATE_LIMIT_DELAY]))
    by (subst w1; unfold after_failure at 1, suggested_delay_of;
        rewrite R0, H0; world_eq).
  assert (F1' : func (calls w1) = Raise e1) by (rewrite E1; exact F1).
  rewrite for_attempts_cons,
    (attempt_body_raises A func uniform 3 1 _ w1 e1 ltac:(lia) F1'
       (fun _ => no_hint_sleepable e1 H1)).
  unfold control_after_failure at 1. rewrite R1.
  set (w2 := after_failure uniform 3 1 e1 (invoked (pre_waited uniform 1 w1))).
  assert (E2 : w2 = mk_world (S (S (calls w))) (S (draws w))
                      (trace w ++ [Invoked (calls w); Slept RATE_LIMIT_DELAY;
                                   Slept (backoff 1 None + uniform (draws w))%Q;
                                   Invoked (S (calls w));
                                   Slept RATE_LIMIT_DELAY]))
    by (subst w2; unfold after_failure at 1, suggested_delay_of;
        rewrite R1, H1, E1; world_eq).
  assert (F2' : func (calls w2) = Ok v) by (rewrite E2; exact F2).
  rewrite for_attempts_cons,
    (attempt_body_returns A func uniform 3 2 _ w2 v ltac:(lia) F2').
  rewrite E2. f_equal. world_eq.
Qed.


(** C10, as the code runs it: with [max_retries = 0] the operation is not
    called and nothing is slept (the world is left as it was) and the
    generic failure of the defensive branch is raised; that branch is taken
    exactly when [max_retries <= 0], a negative [max_retries] leaving
    [range(max_retries)] empty as 0 does. *)
Theorem zero_budget_generic_failure (A : Type) (func : nat -> result A)
        (uniform : nat -> Q) (w : world) :
  execute_with_retry A func uniform (Some 0) w
  = (Raise (mk_exn OtherException "Function failed after 0 attempts"), w)
  /\ (forall max_retries,
         takes_no_error_branch func uniform max_retries w
         <-> max_retries <= 0).
Proof.
  split; [reflexivity|].
  intros mr. apply no_error_branch_iff.
Qed.

(** * Concrete runs *)





(** C7: a budget of two attempts on [always_boom] sleeps twice, 5 and 10
    seconds, not once. *)
Lemma exactly_one_wait_counterexample :
  let run := execute_with_retry nat always_boom no_jitter (Some 2)
               initial_world in
  invocations (trace (snd run)) = [0; 1]%nat
  /\ waits (trace (snd run)) = [5; 10]%Q
  /\ List.length (waits (trace (snd run))) <> 1%nat.
Proof. repeat split. discriminate. Qed.

(** C8: a budget of three attempts on [limited_twice] sleeps four times;
    the backoff before the second and the third call is slept too. *)
Lemma two_rate_limit_waits_counterexample :
  let run := execute_with_retry nat limited_twice no_jitter (Some 3)
               initial_world in
  fst run = Ok 7%nat
  /\ invocations (trace (snd run)) = [0; 1; 2]%nat
  /\ waits (trace (snd run)) = [180; 10; 180; 20]%Q
  /\ waits (trace (snd run)) <> [RATE_LIMIT_DELAY; RATE_LIMIT_DELAY].
Proof. repeat split. discriminate. Qed.

(** C10: with [max_retries = -1] the defensive branch is taken too, though
    the budget given is not zero. *)
Lemma negative_budget_counterexample :
  execute_with_retry nat always_boom no_jitter (Some (-1)) initial_world
  = (Raise (mk_exn OtherException "Function failed after -1 attempts"),
     initial_world)
  /\ ~ (takes_no_error_branch always_boom no_jitter (-1) initial_world
        <-> -1 = 0).
Proof.
  split; [reflexivity|].
  intros [H _]. assert (E : -1 = 0) by (apply H; reflexivity). discriminate E.
Qed.


(** ** Instances of the properties on the concrete operations *)




Lemma always_limited_sleepable c len : hints_sleepable always_limited c len.
Proof.
  intros i e _ He. inversion He; subst e. intros _ s Hs.
  vm_compute in Hs. inversion Hs; subst s. vm_compute. discriminate.
Qed.




Lemma quota_message_has_no_hint :
  ~ has_parseable_hint "429 Resource has been exhausted (e.g. check quota).".
Proof.
  intros H. apply StrFacts.re_search_iff in H. destruct H as [ds H].
  vm_compute in H. discriminate H.
Qed.

Lemma malformed_hint_fallback_witness :
  ~ has_parseable_hint "429 Resource has been exhausted (e.g. check quota)."
  /\ extract_retry_delay "429 Resource has been exhausted (e.g. check quota)."
     = Ok None
  /\ forall w,
      bind (lift (extract_retry_delay
                    "429 Resource has been exhausted (e.g. check quota)."))
           handle_rate_limit w
      = (Ok tt, slept RATE_LIMIT_DELAY w).
Proof.
  split; [exact quota_message_has_no_hint|].
  apply (proj2 (malformed_hint_fallback
                  "429 Resource has been exhausted (e.g. check quota).")).
  exact quota_message_has_no_hint.
Defined.

Lemma final_attempt_no_wait_witness :
  1 <= 2
  /\ execute_with_retry nat always_limited no_jitter (Some 2) initial_world
     = (Raise (mk_exn ResourceExhausted "retry_delay { seconds: 300 }"),
        invoked
          (pre_waited no_jitter (2 - 1)
             (slept (rate_limit_delay (Some 300)) (invoked initial_world)))).
Proof.
  split; [lia|].
  apply (proj1
           (proj2 (proj2 (final_attempt_no_wait nat always_limited no_jitter
                            2 ltac:(lia)))
              initial_world
              (Some (mk_exn ResourceExhausted "retry_delay { seconds: 300 }"))
              (slept (rate_limit_delay (Some 300)) (invoked initial_world))
              ltac:(vm_compute; reflexivity))).
  - lia.
  - reflexivity.
Defined.


Lemma generic_failures_budget_two_witness :
  exists e2,
    always_boom (S (calls initial_world)) = Raise e2
    /\ execute_with_retry nat always_boom no_jitter (Some 2) initial_world
       = (Raise e2,
          mk_world (S (S (calls initial_world))) (S (S (draws initial_world)))
            (trace initial_world
             ++ [Invoked (calls initial_world);
                 Slept (backoff 0 None + no_jitter (draws initial_world))%Q;
                 Slept (backoff 1 None
                        + no_jitter (S (draws initial_world)))%Q;
                 Invoked (S (calls initial_world))])).
Proof.
  apply (generic_failures_budget_two nat always_boom no_jitter initial_world).
  intros k. eexists. split; [reflexivity | discriminate].
Defined.

Lemma rate_limited_twice_then_success_witness :
  execute_with_retry nat limited_twice no_jitter (Some 3) initial_world
  = (Ok 7%nat,
     mk_world 3 2
       [Invoked 0; Slept RATE_LIMIT_DELAY;
        Slept (backoff 1 None + no_jitter 0)%Q;
        Invoked 1; Slept RATE_LIMIT_DELAY;
        Slept (backoff 2 None + no_jitter 1)%Q;
        Invoked 2]).
Proof.
  apply (rate_limited_twice_then_success nat limited_twice no_jitter
           initial_world
           (mk_exn ResourceExhausted "429 Resource has been exhausted")
           (mk_exn ResourceExhausted "429 Resource has been exhausted")
           7%nat); reflexivity.
Defined.


(** * Further facts about [execute_with_retry] *)

(** X1: whatever the operation does, a run of [execute_with_retry] calls it
    at most [max_retries] times, at least once when [max_retries >= 1],
    and not at all (leaving the world untouched) when [max_retries <= 0]. *)
Theorem invocations_within_budget (A : Type) (func : nat -> result A)
        (uniform : nat -> Q) (max_retries : Z) (w : world) :
  let w' := snd (execute_with_retry A func uniform (Some max_retries) w) in
  (calls w <= calls w' <= calls w + Z.to_nat max_retries)%nat
  /\ (List.length (invocations (trace w'))
      = List.length (invocations (trace w)) + (calls w' - calls w))%nat
  /\ (1 <= max_retries -> (calls w < calls w')%nat)
  /\ (max_retries <= 0 -> w' = w).
Proof.
  cbv zeta.
  destruct (execute_with_retry_bounds A func uniform max_retries w)
    as (C & I & P & _).
  split; [exact C|]. split; [exact I|]. split; [exact P|].
  intros Hle. rewrite execute_with_retry_world, range_nonpos by exact Hle.
  reflexivity.
Qed.

(** X2: in every run with a budget between 1 and 1024 attempts, whatever
    the operation returns or raises, the events of the run are a call
    followed, any number of times, by two sleeps and a call: no sleep
    comes before the first call, none after the last, and exactly two
    stand between any two consecutive calls.  So the sleeps are twice as
    many as the calls after the first one. *)
Theorem two_sleeps_between_calls (A : Type) (func : nat -> result A)
        (uniform : nat -> Q) (max_retries : Z) (w : world) :
  1 <= max_retries <= 1024 ->
  let w' := snd (execute_with_retry A func uniform (Some max_retries) w) in
  exists tr,
    trace w' = (trace w ++ tr)%list
    /\ run_shaped tr = true
    /\ List.length (invocations tr) = (calls w' - calls w)%nat
    /\ List.length (waits tr) = (2 * (calls w' - calls w - 1))%nat.
Proof.
  intros Hmr. cbv zeta.
  destruct (execute_with_retry_counts A func uniform max_retries w Hmr)
    as (k & tr & Hk & C & T & I & W & S).
  exists tr. split; [exact T|]. split; [exact S|]. split; lia.
Qed.

(** X3: when the jitter drawn is never negative, no run ever sleeps for a
    negative length, whatever the operation raises and whatever hints its
    messages carry. *)
Theorem sleeps_never_negative (A : Type) (func : nat -> result A)
        (uniform : nat -> Q) (max_retries : Z) (w : world) :
  (forall i, (0 <= uniform i)%Q) ->
  nonneg_waits w ->
  nonneg_waits (snd (execute_with_retry A func uniform (Some max_retries) w)).
Proof.
  intros Hu Hw.
  destruct (execute_with_retry_bounds A func uniform max_retries w)
    as (_ & _ & _ & N).
  now apply N.
Qed.

(** X4: with [max_retries = 1] the executor is transparent: it calls the
    operation once, never sleeps or draws jitter, and returns or raises
    exactly what that call returned or raised. *)
Theorem single_attempt_transparent (A : Type) (func : nat -> result A)
        (uniform : nat -> Q) (w : world) :
  execute_with_retry A func uniform (Some 1) w = (func (calls w), invoked w).
Proof.
  rewrite execute_with_retry_eq. change (range 1) with [0].
  rewrite for_attempts_cons.
  destruct (func (calls w)) as [v|e] eqn:F.
  - rewrite (attempt_body_returns A func uniform 1 0 None w v ltac:(lia) F).
    reflexivity.
  - rewrite (attempt_body_raises A func uniform 1 0 None w e ltac:(lia) F
               ltac:(lia)).
    unfold control_after_failure, after_failure.
    change (0 <? 1 - 1) with false.
    destruct (exc_class e); reflexivity.
Qed.


(** X6: the schedule of [calculate_delay] with the default base delay.
    The delay is the jitter drawn plus 5 * 2^attempt up to attempt index 4
    (5, 10, 20, 40, 80 seconds), plus the cap of 120 seconds from attempt
    index 5 to 1023, and plus nothing below attempt index -1074, where
    the power underflows to zero; from attempt index 1024 on, and at or
    below [- FLOAT_INT_LIMIT], there is no delay: the power raises
    [OverflowError] before any jitter is drawn. *)
Theorem backoff_schedule (uniform : nat -> Q) (attempt : Z) (w : world) :
  (- FLOAT_INT_LIMIT < attempt < 1024 ->
   exists d,
     calculate_delay uniform attempt None w
     = (Ok (d + uniform (draws w))%Q,
        mk_world (calls w) (S (draws w)) (trace w))
     /\ (-1075 < attempt <= 4 ->
         (d == BASE_REQUEST_DELAY * EXPONENTIAL_BACKOFF_MULTIPLIER ^ attempt)%Q)
     /\ (5 <= attempt -> (d == MAX_REQUEST_DELAY)%Q)
     /\ (attempt <= -1075 -> (d == 0)%Q))
  /\ (1024 <= attempt ->
      calculate_delay uniform attempt None w
      = (Raise (power_error attempt), w))
  /\ (attempt <= - FLOAT_INT_LIMIT ->
      calculate_delay uniform attempt None w = (Raise int_too_large, w)).
Proof.
  split; [|split; [apply calculate_delay_overflow|]].
  - intros [Hlo Hlt]. destruct (Z.le_gt_cases attempt (-1075)) as [Hu | Hn].
    + exists (Qmin (BASE_REQUEST_DELAY * 0) MAX_REQUEST_DELAY).
      split; [|split; [lia | split; [lia | intros _; reflexivity]]].
      apply calculate_delay_power. apply multiplier_power_underflow. lia.
    + exists (backoff attempt None).
      split; [apply calculate_delay_eq; lia|].
      split; [|split; [apply backoff_capped | lia]].
      intros [_ H]. unfold backoff. apply Q.min_l.
      apply Qle_trans
        with (BASE_REQUEST_DELAY * EXPONENTIAL_BACKOFF_MULTIPLIER ^ 4)%Q;
        [|discriminate].
      rewrite !(Qmult_comm BASE_REQUEST_DELAY).
      apply Qmult_le_compat_r; [|discriminate].
      apply Qpower_le_compat_l; [exact H | discriminate].
  - intros Ha. unfold calculate_delay, bind, lift.
    now rewrite (multiplier_power_conversion _ Ha).
Qed.

(** * Further facts about [extract_retry_delay] *)

Module HintFacts.
Import Str.

Lemma digit_value_range c : isdigit c = true -> 0 <= digit_value c <= 9.
Proof.
  unfold isdigit, digit_value. intros H.
  apply andb_prop in H. destruct H as [H1 H2].
  apply Nat.leb_le in H1, H2. lia.
Qed.

Lemma decimal_value_nonneg ds : forall acc,
  all isdigit ds = true -> 0 <= acc -> 0 <= decimal_value acc ds.
Proof.
  induction ds as [|c ds IH]; intros acc H Hacc;
    cbn [all decimal_value] in *; [exact Hacc|].
  apply andb_prop in H. destruct H as [Hc Hds].
  apply IH; [exact Hds|]. pose proof (digit_value_range c Hc). lia.
Qed.

Lemma append_assoc (s1 s2 s3 : string) :
  ((s1 ++ s2) ++ s3 = s1 ++ s2 ++ s3)%string.
Proof. induction s1 as [|c s1 IH]; simpl; [reflexivity | now f_equal]. Qed.

Lemma length_append (s1 s2 : string) :
  String.length (s1 ++ s2) = (String.length s1 + String.length s2)%nat.
Proof. induction s1 as [|c s1 IH]; simpl; [reflexivity | now f_equal]. Qed.

Lemma strip_prefix_none_extend p : forall s z,
  strip_prefix p s = None ->
  (String.length p <= String.length s)%nat ->
  strip_prefix p (s ++ z)%string = None.
Proof.
  induction p as [|a p IH]; intros s z H L; simpl in *; [discriminate|].
  destruct s as [|b s]; simpl in *; [lia|].
  destruct (Ascii.eqb a b); [|reflexivity]. apply IH; [exact H | lia].
Qed.

(** The digits [str] prints for an integer that is not negative, and
    their value. *)
Lemma decimal_value_of_uint_acc d : forall acc,
  decimal_value (Z.pos acc) (NilEmpty.string_of_uint d)
  = Z.pos (Pos.of_uint_acc d acc).
Proof.
  induction d; intros acc;
    cbn [NilEmpty.string_of_uint decimal_value Pos.of_uint_acc];
    try reflexivity;
    rewrite <- IHd; f_equal;
    match goal with
    | |- context [digit_value ?c] =>
        let v := eval vm_compute in (digit_value c) in
        change (digit_value c) with v
    end; lia.
Qed.

Lemma decimal_value_of_uint d :
  decimal_value 0 (NilEmpty.string_of_uint d) = Z.of_N (Pos.of_uint d).
Proof.
  induction d;
    cbn [NilEmpty.string_of_uint decimal_value Pos.of_uint];
    try reflexivity; try exact IHd;
    cbn [Z.of_N]; rewrite <- decimal_value_of_uint_acc; reflexivity.
Qed.

Lemma all_isdigit_of_uint d : all isdigit (NilEmpty.string_of_uint d) = true.
Proof. induction d; simpl; try reflexivity; exact IHd. Qed.

Lemma str_nonneg n :
  0 <= n ->
  exists d, d <> Decimal.Nil
            /\ str n = NilEmpty.string_of_uint d
            /\ Z.of_N (Pos.of_uint d) = n.
Proof.
  intros Hn. destruct n as [|p|p]; [| |lia].
  - exists (Decimal.D0 Decimal.Nil). repeat split. discriminate.
  - exists (Pos.to_uint p). split; [apply DecimalPos.Unsigned.to_uint_nonnil|].
    split.
    + unfold str. simpl. unfold NilZero.string_of_uint.
      pose proof (DecimalPos.Unsigned.to_uint_nonnil p) as Hnn.
      destruct (Pos.to_uint p); [contradiction | reflexivity ..].
    + now rewrite DecimalPos.Unsigned.of_to.
Qed.

(** [int(str(n)) = n] on the digits of an integer that is not negative. *)
Lemma str_digits n :
  0 <= n ->
  all isdigit (str n) = true
  /\ str n <> EmptyString
  /\ decimal_value 0 (str n) = n.
Proof.
  intros Hn. destruct (str_nonneg n Hn) as (d & Hd & E & V).
  rewrite E. split; [apply all_isdigit_of_uint|]. split.
  - destruct d; simpl; try discriminate. contradiction.
  - now rewrite decimal_value_of_uint.
Qed.

Lemma append_empty_r (s : string) : (s ++ "")%string = s.
Proof. induction s as [|c s IH]; simpl; [reflexivity | now f_equal]. Qed.

Lemma contains_app_r sub x : forall t,
  contains sub t = true -> contains sub (x ++ t)%string = true.
Proof.
  induction x as [|c x IH]; intros t H; [exact H|].
  change (String c x ++ t)%string with (String c (x ++ t)).
  cbn [contains]. destruct (strip_prefix sub _); [reflexivity|].
  now apply IH.
Qed.

(** Nothing is found before the first place where [retry_delay] stands. *)
Lemma re_search_skips_prefix pre : forall rest,
  contains "retry_delay" (pre ++ "retry_dela") = false ->
  re_search (pre ++ "retry_delay" ++ rest)
  = re_search ("retry_delay" ++ rest).
Proof.
  induction pre as [|c pre IH]; intros rest H; [reflexivity|].
  change (String c pre ++ ?t)%string with (String c (pre ++ t)) in *.
  cbn [contains] in H.
  destruct (strip_prefix "retry_delay" (String c (pre ++ "retry_dela")))
    eqn:E; [discriminate|].
  cbn [re_search].
  assert (N : strip_prefix "retry_delay"
                (String c (pre ++ "retry_delay" ++ rest)) = None).
  { change (String c (pre ++ "retry_delay" ++ rest))
      with (String c (pre ++ "retry_dela" ++ ("y" ++ rest))).
    rewrite <- append_assoc.
    change (String c ((pre ++ "retry_dela") ++ "y" ++ rest))
      with (String c (pre ++ "retry_dela") ++ ("y" ++ rest))%string.
    apply strip_prefix_none_extend; [exact E|].
    cbn [String.length]. rewrite length_append. cbn [String.length]. lia. }
  unfold match_here at 1. rewrite N. now apply IH.
Qed.

(** X7: a hint [extract_retry_delay] returns is never negative, and it is
    returned only for a message in which the hint pattern occurs. *)
Theorem parsed_hint_sound (error_message : string) (n : Z) :
  extract_retry_delay error_message = Ok (Some n) ->
  0 <= n /\ has_parseable_hint error_message.
Proof.
  unfold extract_retry_delay, extract_retry_delay_try.
  destruct (contains "retry_delay" error_message
            && contains "seconds" error_message); [|discriminate].
  destruct (re_search error_message) as [ds|] eqn:S; [|discriminate].
  apply StrFacts.re_search_sound in S.
  unfold int_. destruct (int_max_str_digits <? String.length ds)%nat;
    [discriminate|].
  intros H. inversion H; subst n. split.
  - destruct S as (pre & ws1 & ws2 & ws3 & post & _ & _ & _ & _ & D & _).
    apply decimal_value_nonneg; [exact D | lia].
  - now exists ds.
Qed.

(** X8: a hint written into a message is read back.  Whatever precedes it,
    as long as [retry_delay] does not occur earlier, whatever white space
    (none, blanks, line breaks) separates the tokens and whatever follows
    the number, as long as it is not a digit, [extract_retry_delay] returns
    the integer [n >= 0] whose decimal digits [str(n)] stand after
    [seconds:], when these are at most [int_max_str_digits]. *)
Theorem hint_round_trip (pre ws1 ws2 ws3 post : string) (n : Z) :
  0 <= n ->
  (String.length (str n) <= int_max_str_digits)%nat ->
  all isspace ws1 = true ->
  all isspace ws2 = true ->
  all isspace ws3 = true ->
  take_digits post = EmptyString ->
  contains "retry_delay" (pre ++ "retry_dela") = false ->
  extract_retry_delay
    (pre ++ "retry_delay" ++ ws1 ++ "{" ++ ws2 ++ "seconds:" ++ ws3
     ++ str n ++ post)
  = Ok (Some n).
Proof.
  intros Hn Hlen S1 S2 S3 Hpost Hpre.
  destruct (str_digits n Hn) as (D & Ne & V).
  unfold extract_retry_delay, extract_retry_delay_try.
  rewrite StrFacts.contains_app.
  replace (contains "seconds" _) with true.
  2:{ symmetry. apply contains_app_r.
      apply (contains_app_r "seconds" "retry_delay").
      apply contains_app_r. apply (contains_app_r "seconds" "{").
      apply contains_app_r.
      apply (StrFacts.contains_app "seconds" "" (":" ++ ws3 ++ str n ++ post)). }
  cbn [andb].
  rewrite re_search_skips_prefix by exact Hpre.
  rewrite (StrFacts.re_search_here _ (str n ++ take_digits post)%string)
    by (now apply StrFacts.match_here_complete).
  rewrite Hpost, append_empty_r. unfold int_.
  destruct (Nat.ltb_spec int_max_str_digits (String.length (str n))); [lia|].
  now rewrite V.
Qed.

End HintFacts.

(** * Facts about the keys and the environment *)

(** Decide the comparisons of two literal names. *)
Ltac eqb_names :=
  repeat match goal with
         | |- context [String.eqb ?a ?b] =>
             is_ground a; is_ground b;
             let v := eval vm_compute in (String.eqb a b) in
             change (String.eqb a b) with v
         end;
  cbn [andb].

Lemma truthy_spec v :
  truthy v = true <-> exists c s, v = Some (String c s).
Proof.
  destruct v as [[|c s]|]; simpl; split; intros H; try discriminate;
    try (destruct H as (c' & s' & H); discriminate).
  - now exists c, s.
  - reflexivity.
Qed.

Lemma export_key_spec name value env env' :
  export_key name value env = Ok env' ->
  forall name',
    env' name' = if String.eqb name name' && truthy value then value
                 else env name'.
Proof.
  unfold export_key, environ_set. intros H name'.
  destruct value as [[|c v]|]; simpl.
  - inversion H; subst. now rewrite andb_false_r.
  - destruct (Str.contains _ _); [discriminate|].
    inversion H; subst. rewrite andb_true_r.
    now destruct (String.eqb name name').
  - inversion H; subst. now rewrite andb_false_r.
Qed.

Lemma export_key_ok name value env :
  (forall v, value = Some v ->
             Str.contains (String Ascii.zero EmptyString) v = false) ->
  exists env', export_key name value env = Ok env'.
Proof.
  intros H. unfold export_key, environ_set.
  destruct value as [[|c v]|]; try (eexists; reflexivity).
  rewrite (H _ eq_refl). eexists. reflexivity.
Qed.

(** X9: when [setup_environment] succeeds, every variable other than the
    three keys is left as it was, and each of the three keys holds the
    value of the class attribute if that is set and not empty, and is
    left as it was otherwise. *)
Theorem setup_environment_writes_keys (cls : config) (env env' : environ) :
  setup_environment cls env = Ok env' ->
  (forall name,
      name <> "GOOGLE_API_KEY" -> name <> "SERPER_API_KEY" ->
      name <> "SERPAPI_API_KEY" -> env' name = env name)
  /\ env' "GOOGLE_API_KEY"
     = (if truthy (GOOGLE_API_KEY cls) then GOOGLE_API_KEY cls
        else env "GOOGLE_API_KEY")
  /\ env' "SERPER_API_KEY"
     = (if truthy (SERPER_API_KEY cls) then SERPER_API_KEY cls
        else env "SERPER_API_KEY")
  /\ env' "SERPAPI_API_KEY"
     = (if truthy (SERPAPI_API_KEY cls) then SERPAPI_API_KEY cls
        else env "SERPAPI_API_KEY").
Proof.
  unfold setup_environment. intros H.
  destruct (export_key "GOOGLE_API_KEY" _ env) as [env1|] eqn:E1;
    [|discriminate].
  destruct (export_key "SERPER_API_KEY" _ env1) as [env2|] eqn:E2;
    [|discriminate].
  pose proof (export_key_spec _ _ _ _ E1) as S1.
  pose proof (export_key_spec _ _ _ _ E2) as S2.
  pose proof (export_key_spec _ _ _ _ H) as S3.
  split; [|split; [|split]].
  - intros name N1 N2 N3. rewrite S3, S2, S1.
    destruct (String.eqb_spec "SERPAPI_API_KEY" name); [congruence|].
    destruct (String.eqb_spec "SERPER_API_KEY" name); [congruence|].
    destruct (String.eqb_spec "GOOGLE_API_KEY" name); [congruence|].
    reflexivity.
  - rewrite S3, S2, S1. eqb_names. reflexivity.
  - rewrite S3, S2, S1. eqb_names. reflexivity.
  - rewrite S3, S2, S1. eqb_names. reflexivity.
Qed.

(** X10: the configuration read from an environment, written back by
    [setup_environment], leaves every variable of that environment as it
    is; the call succeeds on an environment whose values hold no null
    character. *)
Theorem setup_environment_round_trip (env : environ) :
  environ_ok env ->
  exists env',
    setup_environment (load_config env) env = Ok env'
    /\ forall name, env' name = env name.
Proof.
  intros Hok. unfold setup_environment, load_config, getenv.
  cbn [GOOGLE_API_KEY SERPER_API_KEY SERPAPI_API_KEY].
  destruct (export_key_ok "GOOGLE_API_KEY" (env "GOOGLE_API_KEY") env)
    as [env1 E1]; [intros v Hv; exact (Hok _ _ Hv)|].
  rewrite E1.
  destruct (export_key_ok "SERPER_API_KEY" (env "SERPER_API_KEY") env1)
    as [env2 E2]; [intros v Hv; exact (Hok _ _ Hv)|].
  rewrite E2.
  destruct (export_key_ok "SERPAPI_API_KEY" (env "SERPAPI_API_KEY") env2)
    as [env3 E3]; [intros v Hv; exact (Hok _ _ Hv)|].
  exists env3. split; [exact E3|].
  intros name.
  rewrite (export_key_spec _ _ _ _ E3), (export_key_spec _ _ _ _ E2),
    (export_key_spec _ _ _ _ E1).
  destruct (String.eqb_spec "SERPAPI_API_KEY" name) as [<-|_]; cbn [andb];
    [now destruct (truthy (env "SERPAPI_API_KEY")); eqb_names|].
  destruct (String.eqb_spec "SERPER_API_KEY" name) as [<-|_]; cbn [andb];
    [now destruct (truthy (env "SERPER_API_KEY")); eqb_names|].
  destruct (String.eqb_spec "GOOGLE_API_KEY" name) as [<-|_]; cbn [andb];
    [now destruct (truthy (env "GOOGLE_API_KEY"))|].
  reflexivity.
Qed.

(** * Facts about the validation of the keys *)

Lemma missing_keys_nil cls :
  missing_keys cls = []
  <-> truthy (GOOGLE_API_KEY cls) = true /\ truthy (SERPER_API_KEY cls) = true.
Proof.
  unfold missing_keys.
  destruct (truthy (GOOGLE_API_KEY cls)), (truthy (SERPER_API_KEY cls));
    simpl; split; intros H; try discriminate; try (destruct H; discriminate);
    auto.
Qed.

(** [missing_keys] lists, Google's first, exactly the required keys that
    are unset or empty; [SERPAPI_API_KEY] is never among them. *)
Lemma missing_keys_exact (cls : config) (name : string) :
  (In name (missing_keys cls)
   <-> (name = "GOOGLE_API_KEY" /\ truthy (GOOGLE_API_KEY cls) = false)
       \/ (name = "SERPER_API_KEY" /\ truthy (SERPER_API_KEY cls) = false))
  /\ (truthy (GOOGLE_API_KEY cls) = false ->
      hd_error (missing_keys cls) = Some "GOOGLE_API_KEY").
Proof.
  unfold missing_keys.
  destruct (truthy (GOOGLE_API_KEY cls)), (truthy (SERPER_API_KEY cls));
    simpl; (split; [split|]); intros H; try discriminate; try reflexivity;
    intuition (try discriminate; auto).
Qed.

(** X11: [validate_required_keys] answers [True] exactly when both required
    keys are set and not empty and the test call does not raise
    [ResourceExhausted]: a test call failing in any other way still
    validates. *)
Theorem validate_required_keys_true (gemini_test : llm -> result unit)
        (cls : config) (tested : list llm) :
  fst (validate_required_keys gemini_test cls tested) = true
  <-> truthy (GOOGLE_API_KEY cls) = true
      /\ truthy (SERPER_API_KEY cls) = true
      /\ (forall e,
             gemini_test (mk_llm "gemini-1.5-flash" (GOOGLE_API_KEY cls)
                            0 10 None None None) = Raise e ->
             exc_class e <> ResourceExhausted).
Proof.
  unfold validate_required_keys.
  destruct (missing_keys cls) as [|k ks] eqn:M.
  - apply missing_keys_nil in M. destruct M as [G S].
    destruct (gemini_test _) as [u|e] eqn:T.
    + simpl. intuition discriminate.
    + destruct (exc_class e) eqn:C; simpl; split; intros H;
        try discriminate; try (repeat split; auto; intros e' E';
                               inversion E'; subst; congruence).
      destruct H as (_ & _ & H). exfalso. now apply (H e).
  - simpl. split; [discriminate|]. intros (G & S & _).
    assert (E : missing_keys cls = []) by now apply missing_keys_nil.
    rewrite E in M. discriminate.
Qed.

(** X13: [DEFAULT_LLM] raises [ValueError] exactly when Google's key is
    unset or empty; a configuration that [validate_required_keys] accepts
    gets a model built with that key and with the client's own retries
    switched off ([max_retries = 0]). *)
Theorem validated_config_has_llm (gemini_test : llm -> result unit)
        (cls : config) (tested : list llm) :
  ((exists e, DEFAULT_LLM cls = Raise e)
   <-> truthy (GOOGLE_API_KEY cls) = false)
  /\ (forall e, DEFAULT_LLM cls = Raise e -> exc_class e = ValueError)
  /\ (fst (validate_required_keys gemini_test cls tested) = true ->
      exists l,
        DEFAULT_LLM cls = Ok l
        /\ llm_google_api_key l = GOOGLE_API_KEY cls
        /\ llm_max_retries l = Some 0).
Proof.
  unfold DEFAULT_LLM. split; [|split].
  - destruct (truthy (GOOGLE_API_KEY cls)); simpl; split; intros H;
      try discriminate; try (destruct H; discriminate); eauto.
  - intros e. destruct (truthy (GOOGLE_API_KEY cls)); simpl; intros H;
      inversion H. reflexivity.
  - intros V.
    assert (G : truthy (GOOGLE_API_KEY cls) = true).
    { destruct (missing_keys cls) as [|k ks] eqn:M.
      - now apply missing_keys_nil in M.
      - unfold validate_required_keys in V. rewrite M in V. discriminate V. }
    rewrite G. simpl. eexists. repeat split.
Qed.

(** * Facts about the tools manager and the agents *)

Lemma manager_grows_refl p : manager_grows p p.
Proof. repeat split; auto. Qed.

Lemma manager_grows_trans p1 p2 p3 :
  manager_grows p1 p2 -> manager_grows p2 p3 -> manager_grows p1 p3.
Proof.
  intros (A1 & B1 & C1) (A2 & B2 & C2). repeat split; auto.
Qed.

Lemma new_tools_manager_ok : manager_ok new_tools_manager.
Proof.
  unfold manager_ok, new_tools_manager. simpl.
  repeat split; try discriminate; try contradiction; lia.
Qed.

Lemma serper_dev_tool_ok env p :
  manager_ok p ->
  manager_ok (snd (serper_dev_tool env p))
  /\ manager_grows p (snd (serper_dev_tool env p))
  /\ _serper_dev_tool (snd (serper_dev_tool env p))
     = Some (fst (serper_dev_tool env p)).
Proof.
  intros (I1 & I2 & I3 & I4 & I5). unfold serper_dev_tool.
  destruct (_serper_dev_tool p) as [t|] eqn:S.
  - cbn [fst snd]. split; [|split; [apply manager_grows_refl | exact S]].
    unfold manager_ok. rewrite S. auto.
  - cbn [fst snd]. split; [|split; [|reflexivity]].
    + unfold manager_ok.
      cbn [_serper_dev_tool _scrape_website_tool built stdout is_set].
      split; [|split; [|split; [|split]]].
      * intros t Ht. apply in_app_or in Ht. destruct Ht as [Ht | [<- | []]].
        -- destruct (I1 t Ht) as [[_ E] | R]; [discriminate | now right].
        -- left. split; reflexivity.
      * intros t E. inversion E; subst. split; [|reflexivity].
        apply in_or_app. right. now left.
      * intros t E. destruct (I3 t E) as [Ht C]. split; [|exact C].
        apply in_or_app. now left.
      * rewrite length_app. cbn [List.length is_set] in *. lia.
      * cbn [is_set] in I5.
        destruct (negb (truthy (getenv env "SERPER_API_KEY")));
          [rewrite length_app; cbn [List.length]|]; lia.
    + unfold manager_grows.
      cbn [_serper_dev_tool _scrape_website_tool built].
      split; [intros t Ht; rewrite S in Ht; discriminate|].
      split; [auto|]. intros t Ht. apply in_or_app. now left.
Qed.

Lemma scrape_website_tool_ok p :
  manager_ok p ->
  manager_ok (snd (scrape_website_tool p))
  /\ manager_grows p (snd (scrape_website_tool p))
  /\ _scrape_website_tool (snd (scrape_website_tool p))
     = Some (fst (scrape_website_tool p)).
Proof.
  intros (I1 & I2 & I3 & I4 & I5). unfold scrape_website_tool.
  destruct (_scrape_website_tool p) as [t|] eqn:S.
  - cbn [fst snd]. split; [|split; [apply manager_grows_refl | exact S]].
    unfold manager_ok. rewrite S. auto.
  - cbn [fst snd]. split; [|split; [|reflexivity]].
    + unfold manager_ok.
      cbn [_serper_dev_tool _scrape_website_tool built stdout is_set].
      split; [|split; [|split; [|split]]].
      * intros t Ht. apply in_app_or in Ht. destruct Ht as [Ht | [<- | []]].
        -- destruct (I1 t Ht) as [L | [_ E]]; [now left | discriminate].
        -- right. split; reflexivity.
      * intros t E. destruct (I2 t E) as [Ht C]. split; [|exact C].
        apply in_or_app. now left.
      * intros t E. inversion E; subst. split; [|reflexivity].
        apply in_or_app. right. now left.
      * rewrite length_app. cbn [List.length is_set] in *. lia.
      * exact I5.
    + unfold manager_grows.
      cbn [_serper_dev_tool _scrape_website_tool built].
      split; [auto|].
      split; [intros t Ht; rewrite S in Ht; discriminate|].
      intros t Ht. apply in_or_app. now left.
Qed.

(** A tool the manager holds is one it has built. *)
Lemma held_is_built p t :
  manager_ok p ->
  _serper_dev_tool p = Some t \/ _scrape_website_tool p = Some t ->
  In t (built p).
Proof.
  intros (_ & I2 & I3 & _) [E | E]; [apply (I2 t E) | apply (I3 t E)].
Qed.

(** One use keeps the manager in order and hands out tools it holds. *)
Lemma perform_ok env a p :
  manager_ok p ->
  manager_ok (snd (perform env a p))
  /\ manager_grows p (snd (perform env a p))
  /\ (forall t, In t (fst (perform env a p)) ->
                _serper_dev_tool (snd (perform env a p)) = Some t
                \/ _scrape_website_tool (snd (perform env a p)) = Some t).
Proof.
  intros Hok.
  destruct (serper_dev_tool_ok env p Hok) as (O1 & G1 & E1).
  destruct (scrape_website_tool_ok p Hok) as (O2 & G2 & E2).
  destruct a; unfold perform, get_research_tools, get_writer_tools,
    get_review_tools.
  - destruct (serper_dev_tool env p) as [t p']. cbn [fst snd] in *.
    split; [exact O1|]. split; [exact G1|].
    intros t' [<- | []]. now left.
  - destruct (scrape_website_tool p) as [t p']. cbn [fst snd] in *.
    split; [exact O2|]. split; [exact G2|].
    intros t' [<- | []]. now right.
  - destruct (serper_dev_tool env p) as [t1 p1]. cbn [fst snd] in *.
    destruct (scrape_website_tool_ok p1 O1) as (O3 & G3 & E3).
    destruct (scrape_website_tool p1) as [t2 p2]. cbn [fst snd] in *.
    split; [exact O3|]. split; [now apply manager_grows_trans with p1|].
    intros t' [<- | [<- | []]]; [left | now right].
    now apply G3.
  - destruct (serper_dev_tool env p) as [t p']. cbn [fst snd] in *.
    split; [exact O1|]. split; [exact G1|].
    intros t' [<- | []]. now left.
  - destruct (serper_dev_tool env p) as [t p']. cbn [fst snd] in *.
    split; [exact O1|]. split; [exact G1|].
    intros t' [<- | []]. now left.
Qed.

Lemma perform_all_ok uses : forall p,
  manager_ok p ->
  manager_ok (snd (perform_all uses p))
  /\ manager_grows p (snd (perform_all uses p))
  /\ (forall t, In t (fst (perform_all uses p)) ->
                _serper_dev_tool (snd (perform_all uses p)) = Some t
                \/ _scrape_website_tool (snd (perform_all uses p)) = Some t).
Proof.
  induction uses as [|[env a] rest IH]; intros p Hok.
  - cbn [perform_all fst snd]. split; [exact Hok|].
    split; [apply manager_grows_refl | intros t []].
  - cbn [perform_all].
    destruct (perform_ok env a p Hok) as (O1 & G1 & H1).
    destruct (perform env a p) as [ts p1]. cbn [fst snd] in *.
    destruct (IH p1 O1) as (O2 & G2 & H2).
    destruct (perform_all rest p1) as [ts' p2]. cbn [fst snd] in *.
    split; [exact O2|]. split; [now apply manager_grows_trans with p1|].
    intros t Ht. apply in_app_or in Ht. destruct Ht as [Ht | Ht].
    + destruct G2 as (A & B & _).
      destruct (H1 t Ht) as [E | E]; [left; now apply A | right; now apply B].
    + now apply H2.
Qed.

(** X14: the tools of the manager are lazy singletons.  After any sequence
    of uses of a new manager, in whatever environments, two tools of the
    same class that were handed out are the same object, every tool handed
    out is one of the at most two tools built, and the warning about the
    missing key was printed at most once. *)
Theorem tools_are_singletons (uses : list (environ * access)) :
  let ts := fst (perform_all uses new_tools_manager) in
  let p := snd (perform_all uses new_tools_manager) in
  (forall t t', In t ts -> In t' ts -> tool_cls t = tool_cls t' -> t = t')
  /\ (forall t, In t ts -> In t (built p))
  /\ (List.length (built p) <= 2)%nat
  /\ (List.length (stdout p) <= 1)%nat.
Proof.
  cbv zeta.
  destruct (perform_all_ok uses new_tools_manager new_tools_manager_ok)
    as (Hok & _ & Hheld).
  set (ts := fst (perform_all uses new_tools_manager)) in *.
  set (p := snd (perform_all uses new_tools_manager)) in *.
  pose proof Hok as (I1 & I2 & I3 & I4 & I5).
  split; [|split; [|split]].
  - intros t t' Ht Ht' C.
    destruct (Hheld t Ht) as [E | E], (Hheld t' Ht') as [E' | E'];
      try congruence.
    + destruct (I2 t E) as [_ C1]. destruct (I3 t' E') as [_ C2]. congruence.
    + destruct (I3 t E) as [_ C1]. destruct (I2 t' E') as [_ C2]. congruence.
  - intros t Ht. apply held_is_built; auto.
  - rewrite I4.
    destruct (_serper_dev_tool p), (_scrape_website_tool p); simpl; lia.
  - destruct (_serper_dev_tool p); simpl in I5; lia.
Qed.

(** X15: importing [tools] builds the two tools, the search tool first, and
    prints the warning exactly when [SERPER_API_KEY] is unset or empty at
    that moment; after the import every use of the manager hands out these
    two objects only and changes nothing: no tool is built and nothing is
    printed any more, whatever the environment has become. *)
Theorem import_tools_then_pure (env env' : environ) (a : access) :
  let p := import_tools env in
  built p = [mk_tool SerperDevTool 0; mk_tool ScrapeWebsiteTool 1]
  /\ stdout p
     = (if truthy (getenv env "SERPER_API_KEY") then []
        else ["Warning: SERPER_API_KEY not found in environment variables"])
  /\ snd (perform env' a p) = p
  /\ (forall t, In t (fst (perform env' a p)) -> In t (built p)).
Proof.
  cbv zeta. unfold import_tools, new_tools_manager, serper_dev_tool,
    scrape_website_tool.
  cbn [_serper_dev_tool _scrape_website_tool built stdout List.length app].
  split; [reflexivity|]. split.
  - now destruct (truthy (getenv env "SERPER_API_KEY")).
  - destruct a; cbn; (split; [reflexivity|]); intros t H;
      repeat (destruct H as [<- | H]; [cbn; auto|]); contradiction.
Qed.

(** X16: creating the three agents of the crew.  With Google's key set the
    three agents are created, none verbose, each with a model whose own
    retries are off; the research agent gets the search tool and the
    scraping tool, the writer and the reviewer get that same search tool
    object.  With the key unset or empty the first creation raises
    [ValueError].  In both cases the tools are those the research agent
    asked for: they are initialised before the key is looked at, and
    nothing is built after them. *)
Theorem create_agents_shares_tools (cls : config) (env : environ)
        (p : process) :
  let r := create_agents cls env p in
  snd r = snd (get_research_tools env p)
  /\ (truthy (GOOGLE_API_KEY cls) = false ->
      exists e, fst r = Raise e /\ exc_class e = ValueError)
  /\ (truthy (GOOGLE_API_KEY cls) = true ->
      exists s c research_agent writer_agent review_agent,
        fst r = Ok (research_agent, writer_agent, review_agent)
        /\ fst (get_research_tools env p) = [s; c]
        /\ agent_tools research_agent = [s; c]
        /\ agent_tools writer_agent = [s]
        /\ agent_tools review_agent = [s]
        /\ Forall (fun a => agent_verbose a = false
                            /\ llm_max_retries (agent_llm a) = Some 0
                            /\ llm_google_api_key (agent_llm a)
                               = GOOGLE_API_KEY cls)
                  [research_agent; writer_agent; review_agent]).
Proof.
  cbv zeta.
  unfold create_agents, create_research_agent, create_writer_agent,
    create_review_agent, get_research_tools, get_writer_tools,
    get_review_tools, serper_dev_tool, scrape_website_tool, DEFAULT_LLM.
  destruct p as [[s|] [c|] out b];
    cbn [_serper_dev_tool _scrape_website_tool stdout built];
    destruct (truthy (GOOGLE_API_KEY cls)); cbn [negb fst snd];
    (split; [reflexivity|]);
    (split; intros H; try discriminate H);
    try (eexists; split; reflexivity);
    do 5 eexists; (split; [reflexivity|]);
    repeat split; repeat constructor.
Qed.

(** X17: with [max_retries] left out the budget is [MAX_RETRIES = 5]: the
    operation is called at least once and at most five times, and the run
    sleeps at most eight times. *)
Theorem default_budget (A : Type) (func : nat -> result A)
        (uniform : nat -> Q) (w : world) :
  let w' := snd (execute_with_retry A func uniform None w) in
  (calls w + 1 <= calls w' <= calls w + 5)%nat
  /\ (List.length (waits (trace w')) <= List.length (waits (trace w)) + 8)%nat.
Proof.
  cbv zeta. rewrite execute_with_retry_default.
  destruct (execute_with_retry_counts A func uniform MAX_RETRIES w
              ltac:(unfold MAX_RETRIES; lia))
    as (k & tr & Hk & C & T & _ & W & _).
  change (Z.to_nat MAX_RETRIES) with 5%nat in Hk.
  rewrite T, waits_app, length_app. lia.
Qed.

(** * Instances of the further properties *)

Lemma two_sleeps_between_calls_witness :
  1 <= 3 <= 1024
  /\ exists tr,
      trace (snd (execute_with_retry nat always_boom no_jitter (Some 3)
                    initial_world))
      = (trace initial_world ++ tr)%list
      /\ run_shaped tr = true
      /\ List.length (invocations tr)
         = (calls (snd (execute_with_retry nat always_boom no_jitter
                          (Some 3%Z) initial_world))
            - calls initial_world)%nat
      /\ List.length (waits tr)
         = (2 * (calls (snd (execute_with_retry nat always_boom no_jitter
                               (Some 3%Z) initial_world))
                 - calls initial_world - 1))%nat.
Proof.
  split; [lia|].
  apply (two_sleeps_between_calls nat always_boom no_jitter 3 initial_world).
  lia.
Defined.

Lemma no_jitter_nonneg : forall i, (0 <= no_jitter i)%Q.
Proof. intros i. discriminate. Qed.

Lemma sleeps_never_negative_witness :
  (forall i, (0 <= no_jitter i)%Q)
  /\ nonneg_waits initial_world
  /\ nonneg_waits (snd (execute_with_retry nat always_limited no_jitter
                          (Some 3) initial_world)).
Proof.
  split; [exact no_jitter_nonneg|]. split; [constructor|].
  apply (sleeps_never_negative nat always_limited no_jitter 3 initial_world);
    [exact no_jitter_nonneg | constructor].
Defined.


Lemma backoff_schedule_witness :
  (exists d,
      calculate_delay no_jitter 3 None initial_world
      = (Ok (d + no_jitter (draws initial_world))%Q,
         mk_world (calls initial_world) (S (draws initial_world))
           (trace initial_world))
      /\ (-1075 < 3 <= 4 ->
          (d == BASE_REQUEST_DELAY * EXPONENTIAL_BACKOFF_MULTIPLIER ^ 3)%Q)
      /\ (5 <= 3 -> (d == MAX_REQUEST_DELAY)%Q)
      /\ (3 <= -1075 -> (d == 0)%Q))
  /\ calculate_delay no_jitter 2000 None initial_world
     = (Raise (power_error 2000), initial_world).
Proof.
  split.
  - apply (proj1 (backoff_schedule no_jitter 3 initial_world)).
    split; vm_compute; reflexivity.
  - apply (proj1 (proj2 (backoff_schedule no_jitter 2000 initial_world))).
    lia.
Defined.

Lemma parsed_hint_sound_witness :
  extract_retry_delay "quota: retry_delay{seconds:045}" = Ok (Some 45)
  /\ 0 <= 45
  /\ has_parseable_hint "quota: retry_delay{seconds:045}".
Proof.
  split; [reflexivity|].
  apply (HintFacts.parsed_hint_sound "quota: retry_delay{seconds:045}" 45).
  reflexivity.
Defined.

Lemma hint_round_trip_witness :
  extract_retry_delay
    ("429 Quota exceeded. " ++ "retry_delay" ++ " " ++ "{"
     ++ String (ascii_of_nat 10) "  " ++ "seconds:" ++ " "
     ++ Str.str 45 ++ String (ascii_of_nat 10) "}")
  = Ok (Some 45).
Proof.
  apply (HintFacts.hint_round_trip "429 Quota exceeded. " " "
           (String (ascii_of_nat 10) "  ") " "
           (String (ascii_of_nat 10) "}") 45).
  - lia.
  - apply Nat.leb_le. vm_compute. reflexivity.
  - reflexivity.
  - reflexivity.
  - reflexivity.
  - reflexivity.
  - reflexivity.
Defined.

Lemma setup_environment_writes_keys_witness :
  exists env',
    setup_environment keys_set google_only = Ok env'
    /\ env' "GOOGLE_API_KEY" = Some "google-key"
    /\ env' "SERPER_API_KEY" = Some "serper-key"
    /\ env' "SERPAPI_API_KEY" = None
    /\ env' "PATH" = google_only "PATH".
Proof.
  eexists. split; [reflexivity|].
  destruct (setup_environment_writes_keys keys_set google_only _ eq_refl)
    as (Other & G & S & P).
  repeat split.
Defined.

Lemma google_only_ok : environ_ok google_only.
Proof.
  intros name value H. unfold google_only in H.
  destruct (String.eqb name "GOOGLE_API_KEY"); [|discriminate].
  inversion H. reflexivity.
Qed.

Lemma setup_environment_round_trip_witness :
  environ_ok google_only
  /\ exists env',
      setup_environment (load_config google_only) google_only = Ok env'
      /\ forall name, env' name = google_only name.
Proof.
  split; [exact google_only_ok|].
  apply (setup_environment_round_trip google_only). exact google_only_ok.
Defined.

Lemma validated_config_has_llm_witness :
  fst (validate_required_keys test_passes keys_set []) = true
  /\ exists l,
      DEFAULT_LLM keys_set = Ok l
      /\ llm_google_api_key l = GOOGLE_API_KEY keys_set
      /\ llm_max_retries l = Some 0.
Proof.
  split; [reflexivity|].
  apply (proj2 (proj2 (validated_config_has_llm test_passes keys_set []))).
  reflexivity.
Defined.

Lemma create_agents_shares_tools_witness :
  truthy (GOOGLE_API_KEY keys_set) = true
  /\ exists s c research_agent writer_agent review_agent,
      fst (create_agents keys_set google_only (import_tools google_only))
      = Ok (research_agent, writer_agent, review_agent)
      /\ fst (get_research_tools google_only (import_tools google_only))
         = [s; c]
      /\ agent_tools research_agent = [s; c]
      /\ agent_tools writer_agent = [s]
      /\ agent_tools review_agent = [s]
      /\ Forall (fun a => agent_verbose a = false
                          /\ llm_max_retries (agent_llm a) = Some 0
                          /\ llm_google_api_key (agent_llm a)
                             = GOOGLE_API_KEY keys_set)
                [research_agent; writer_agent; review_agent].
Proof.
  split; [reflexivity|].
  apply (proj2 (proj2 (create_agents_shares_tools keys_set google_only
                         (import_tools google_only)))).
  reflexivity.
Defined.
